(** * Swarm operators of pyswarms ([pyswarms/backend/operators.py])

    A shallow embedding of the five operators of the swarm backend
    ([update_pbest], [update_gbest], [update_gbest_neighborhood],
    [update_velocity], [update_position]) and the properties of them that
    the specification states.

    Arrays are lists ([list F] for a vector, [list (list F)] for a matrix,
    row-major as numpy has them).  The entries are kept abstract: the
    operators are written once over any scalar type with the comparisons
    and the arithmetic numpy applies elementwise (class [Scalar]), and run
    on binary64 floats and on integers.  What the comparisons of floats and
    of integers have in common is [CompareLaws]: facts about minima are
    proved from it, for the values that are not NaN.  [OrderLaws] asks for a
    total order on every value, which the integers give and the floats do
    not; the facts that need neither hold of every scalar, NaN included.

    The nearest-neighbour query of [update_gbest_neighborhood] is scipy's.
    A model of it ([cKDTree_query], on binary64 as scipy computes) runs the
    operator on examples; the general statements take the index array as
    whatever the query returns ([update_gbest_neighborhood_with]).

    The operators are followed on swarms whose arrays have the shapes the
    swarm declares ([swarm_wf]).  On other shapes numpy broadcasts or raises,
    which the lists here do not imitate, so every statement about shapes
    assumes [swarm_wf].  A swarm is a record, so on a swarm the exceptions
    that can arise are the KeyError of a missing behavior key and the
    ValueError and IndexError of numpy and scipy; the AttributeError that
    each operator logs and re-raises is followed on objects that lack
    attributes of a swarm ([PyObj]). *)

From Stdlib Require Import ZArith Lia ZifyBool Floats.
From Stdlib Require Uint63.
From stdpp Require Import base option list strings gmap.

(** ** Scalars *)

Class Scalar (F : Type) := {
  s_lt : F → F → bool;      (* x < y *)
  s_le : F → F → bool;      (* x <= y; numpy's x >= y is [s_le y x] *)
  s_add : F → F → F;
  s_sub : F → F → F;
  s_mul : F → F → F;
  s_abs : F → F;
  s_zero : F;
}.

#[export] Instance float_scalar : Scalar float := {|
  s_lt := PrimFloat.ltb;
  s_le := PrimFloat.leb;
  s_add := PrimFloat.add;
  s_sub := PrimFloat.sub;
  s_mul := PrimFloat.mul;
  s_abs := PrimFloat.abs;
  s_zero := 0%float;
|}.

#[export] Instance Z_scalar : Scalar Z := {|
  s_lt := Z.ltb;
  s_le := Z.leb;
  s_add := Z.add;
  s_sub := Z.sub;
  s_mul := Z.mul;
  s_abs := Z.abs;
  s_zero := 0%Z;
|}.

Declare Scope scalar_scope.
Delimit Scope scalar_scope with S.
Notation "x + y" := (s_add x y) : scalar_scope.
Notation "x - y" := (s_sub x y) : scalar_scope.
Notation "x * y" := (s_mul x y) : scalar_scope.
Notation "x <? y" := (s_lt x y) : scalar_scope.
Notation "x <=? y" := (s_le x y) : scalar_scope.

(** numpy's [npy_isnan]: NaN is the one value that is not [<=] itself. *)
Definition s_isnan {F : Type} `{Scalar F} (x : F) : bool := negb (s_le x x).

(** What the comparisons of binary64 floats and of integers have in common:
    a comparison with NaN is false, [<=] is transitive, and on values that
    are not NaN [<] is the complement of the converse of [<=]. *)
Class CompareLaws (F : Type) `{Scalar F} : Prop := {
  cmp_le_number : ∀ x y : F,
    s_le x y = true → s_isnan x = false ∧ s_isnan y = false;
  cmp_lt_le : ∀ x y : F, s_lt x y = true → s_le x y = true;
  cmp_lt_not_le : ∀ x y : F,
    s_isnan x = false → s_isnan y = false → s_lt x y = negb (s_le y x);
  cmp_le_trans : ∀ x y z : F,
    s_le x y = true → s_le y z = true → s_le x z = true;
}.

(** The order is a strict total order and [<=] is its reflexive closure. *)
Class OrderLaws (F : Type) `{Scalar F} : Prop := {
  lt_irrefl : ∀ x : F, s_lt x x = false;
  lt_trans : ∀ x y z : F, s_lt x y = true → s_lt y z = true → s_lt x z = true;
  lt_connected : ∀ x y : F, s_lt x y = false → s_lt y x = false → x = y;
  le_not_lt : ∀ x y : F, s_le x y = negb (s_lt y x);
}.

(** [np.asarray(x, dtype=np.float64)], entry by entry: [cKDTree] converts
    its data and its query points to binary64, whatever the dtype of the
    positions. *)
Class AsFloat64 (F : Type) := as_float64 : F → float.

#[export] Instance float_as_float64 : AsFloat64 float := λ x, x.

(** An integer of numpy's int64, rounded to the nearest float. *)
Definition Z_as_float (z : Z) : float :=
  if (z <? 0)%Z then PrimFloat.opp (PrimFloat.of_uint63 (Uint63.of_Z (- z)))
  else PrimFloat.of_uint63 (Uint63.of_Z z).

#[export] Instance Z_as_float64 : AsFloat64 Z := Z_as_float.

(** ** Exceptions *)

Inductive exn := KeyError | ValueError | IndexError.

Inductive result (A : Type) :=
  | Ok (a : A)
  | Raise (e : exn).
Arguments Ok {A} a.
Arguments Raise {A} e.

#[export] Instance result_ret : MRet result := λ A a, Ok a.
#[export] Instance result_bind : MBind result := λ A B f m,
  match m with Ok a => f a | Raise e => Raise e end.

Definition or_raise {A} (e : exn) (o : option A) : result A :=
  match o with Some a => Ok a | None => Raise e end.

(** ** The numpy operations the operators use *)

Section numpy.
Context {F : Type} `{Scalar F}.

(** [a[i]] for a non-negative index. *)
Definition index {A} (a : list A) (i : nat) : result A :=
  or_raise IndexError (a !! i).

(** [a[idx]] for an index vector. *)
Definition take_idx {A} (a : list A) (idx : list nat) : result (list A) :=
  mapM (index a) idx.

(** [np.where(cond, x, y)] on vectors and on matrices of one shape. *)
Fixpoint np_where {A} (cond : list bool) (x y : list A) : list A :=
  match cond, x, y with
  | c :: cond', a :: x', b :: y' => (if c then a else b) :: np_where cond' x' y'
  | _, _, _ => []
  end.

Fixpoint np_where2 {A} (cond : list (list bool)) (x y : list (list A))
    : list (list A) :=
  match cond, x, y with
  | c :: cond', a :: x', b :: y' => np_where c a b :: np_where2 cond' x' y'
  | _, _, _ => []
  end.

(** [~mask]. *)
Definition np_not (mask : list bool) : list bool := negb <$> mask.
Definition np_not2 (mask : list (list bool)) : list (list bool) := np_not <$> mask.

(** [np.repeat(mask[:, np.newaxis], d, axis=1)]. *)
Definition repeat_cols (mask : list bool) (d : nat) : list (list bool) :=
  (λ b, replicate d b) <$> mask.

(** [np.all(m, axis=1)]. *)
Definition np_all_rows (m : list (list bool)) : list bool := forallb id <$> m.

(** Elementwise binary operations on two matrices of one shape, a scalar
    against a matrix, and a vector broadcast against the rows of a matrix. *)
Definition mat_zip {A B C} (f : A → B → C) (a : list (list A)) (b : list (list B))
    : list (list C) :=
  zip_with (zip_with f) a b.
Definition mat_map {A B} (f : A → B) (a : list (list A)) : list (list B) :=
  (λ row : list A, f <$> row) <$> a.
Definition row_zip {A B C} (f : A → B → C) (v : list A) (m : list (list B))
    : list (list C) :=
  (λ row, zip_with f v row) <$> m.

(** [np.argmin(a)], as numpy's loop over a float or integer array runs:
    [mp] is the first entry; an entry [x] with [!(x >= mp)] becomes the new
    [mp]; the loop ends at once when [mp] is NaN.  So the result is the index
    of the first NaN if there is one, and the first index of the least entry
    otherwise.  ValueError on an empty array. *)
Fixpoint argmin_from (best_i : nat) (best : F) (i : nat) (a : list F) : nat :=
  match a with
  | [] => best_i
  | x :: a' =>
      if s_isnan best then best_i
      else if s_le best x then argmin_from best_i best (S i) a'
      else argmin_from i x (S i) a'
  end.

Definition np_argmin (a : list F) : result nat :=
  match a with
  | [] => Raise ValueError
  | x :: a' => Ok (argmin_from 0 x 1 a')
  end.

(** [np.minimum(m, y)] as the reduction applies it:
    [(m <= y || npy_isnan(m)) ? m : y]. *)
Definition np_minimum (m y : F) : F :=
  if s_le m y || s_isnan m then m else y.

(** [np.min(a)]: the reduction of [a] by [np.minimum] from the left, so NaN
    if [a] holds a NaN.  ValueError on an empty array. *)
Definition np_min (a : list F) : result F :=
  match a with
  | [] => Raise ValueError
  | x :: a' => Ok (foldl np_minimum x a')
  end.

(** [m.argmin(axis=1)]. *)
Definition argmin_axis1 (m : list (list F)) : result (list nat) :=
  mapM np_argmin m.

(** [idx[np.arange(len(idx)), cols]]. *)
Definition pick (idx : list (list nat)) (cols : list nat) : result (list nat) :=
  mapM (λ rc : list nat * nat, index rc.1 rc.2) (zip idx cols).

(** [np.sum] of a vector. *)
Definition np_sum (a : list F) : F := foldl s_add s_zero a.

(** An elementwise operation on two rows under numpy's broadcasting: rows of
    one length are paired, a row of length 1 is stretched along the other,
    and any other pair of lengths is a ValueError. *)
Definition bcast_zip {A B C} (f : A → B → C) (a : list A) (b : list B)
    : result (list C) :=
  if bool_decide (length a = length b) then Ok (zip_with f a b)
  else match a, b with
       | [x], _ => Ok (f x <$> b)
       | _, [y] => Ok ((λ x, f x y) <$> a)
       | _, _ => Raise ValueError
       end.

(** [a <= b] on two matrices with the same number of rows. *)
Definition np_le2 (a b : list (list F)) : result (list (list bool)) :=
  mapM (λ rows : list F * list F, bcast_zip s_le rows.1 rows.2) (zip a b).
End numpy.

(** ** scipy's [cKDTree.query]

    [cKDTree(data).query(x, p=p, k=k)] gives, for every row of [x], the
    indices of its [k] nearest rows of [data] under the Minkowski [p]-norm,
    nearest first.  scipy converts [data] and [x] to binary64 and computes
    there, so the model is on floats.  [cKDTree] raises ValueError for data
    that is not finite, and the query for [p < 1]; a call with [k < 1] ends
    in a ValueError too.  The tree compares the [p]-th powers of the
    distances, [Σ |x_j - y_j|^p], and takes as neighbours the rows whose
    power is below infinity: a row whose distance overflows is no neighbour.
    When fewer than [k] neighbours are found the missing ones are reported
    as index [len(data)].  Every integer [p ≥ 1] is a norm the query accepts,
    not only 1 and 2.

    Three things are not scipy's here.  The power [|d|^p] is taken by
    repeated multiplication and the sum runs over the dimensions from the
    left, so the last bit of a distance may differ from scipy's for [p > 2]
    or in a tree that sums in another order.  Rows at the same distance are
    kept in index order, where scipy's order follows its tree.  A [k] so
    large that the index array cannot be allocated is not followed.  The
    statements that hold of every swarm are therefore made for every index
    array the query may return ([update_gbest_neighborhood_with]), and this
    model serves the examples: swarms at small integers, whose distances
    are exact and differ from one another, and two swarms chosen for their
    rounding, [close_particles] (every distance rounds to 0) and
    [far_particles] (every distance between two particles overflows). *)

Section kdtree.

(** [x ^ (n + 1)]. *)
Fixpoint pow_succ (x : float) (n : nat) : float :=
  match n with
  | 0 => x
  | S n' => s_mul x (pow_succ x n')
  end.

(** The [p]-th power of the Minkowski distance of [x] and [y], [p ≥ 1]. *)
Definition minkowski_p (p : nat) (x y : list float) : float :=
  np_sum (zip_with (λ a b, pow_succ (s_abs (s_sub a b)) (p - 1)) x y).

(** Candidates [(index, distance)] sorted by distance, by insertion; a
    candidate goes before the first one that is not nearer. *)
Fixpoint insert_near (c : nat * float) (l : list (nat * float))
    : list (nat * float) :=
  match l with
  | [] => [c]
  | c' :: l' => if s_lt c'.2 c.2 then c' :: insert_near c l' else c :: l
  end.

Definition sort_near (l : list (nat * float)) : list (nat * float) :=
  foldr insert_near [] l.

(** The rows of [data] at a distance from [x] whose power is below
    infinity, with their indices. *)
Definition neighbours (data : list (list float)) (p : nat) (x : list float)
    : list (nat * float) :=
  List.filter (λ c : nat * float, s_lt c.2 PrimFloat.infinity)
              (imap (λ j y, (j, minkowski_p p x y)) data).

(** The row of the index array for the query point [x]. *)
Definition knn_row (data : list (list float)) (p k : nat) (x : list float)
    : list nat :=
  let near := take k (sort_near (neighbours data p x)).*1 in
  near ++ replicate (k - length near) (length data).

(** [np.isfinite(m).all()]. *)
Definition all_finite (m : list (list float)) : bool :=
  forallb (forallb PrimFloat.is_finite) m.

Definition cKDTree_query (data x : list (list float)) (p k : Z)
    : result (list (list nat)) :=
  if negb (all_finite data) then Raise ValueError
  else if (p <? 1)%Z then Raise ValueError
  else if negb (all_finite x) then Raise ValueError
  else if (k <? 1)%Z then Raise ValueError
  else Ok (knn_row data (Z.to_nat p) (Z.to_nat k) <$> x).
End kdtree.

(** ** The swarm and its operators *)

Section operators.
Context {F : Type} `{Scalar F} `{AsFloat64 F}.

(** Modelled from the spec: the [Swarm] class, which [operators.py] takes
    from [pyswarms.backend.swarms] and does not declare.  Its attributes are
    the ones the operators read, with the shapes the specification gives
    them. *)
Record Swarm := {
  position : list (list F);      (* (n_particles, dimensions) *)
  velocity : list (list F);      (* (n_particles, dimensions) *)
  n_particles : nat;
  dimensions : nat;
  behavior : gmap string F;      (* keys c1, c2, w *)
  pbest_pos : list (list F);     (* (n_particles, dimensions) *)
  best_pos : list F;             (* (dimensions,) *)
  pbest_cost : list F;           (* (n_particles,) *)
  best_cost : F;
  current_cost : list F;         (* (n_particles,) *)
}.

(** The shape invariant of a swarm. *)
Definition has_shape {A} (n d : nat) (m : list (list A)) : bool :=
  bool_decide (length m = n) && forallb (λ row, bool_decide (length row = d)) m.

Definition swarm_wf (s : Swarm) : bool :=
  has_shape (n_particles s) (dimensions s) (position s)
  && has_shape (n_particles s) (dimensions s) (velocity s)
  && has_shape (n_particles s) (dimensions s) (pbest_pos s)
  && bool_decide (length (best_pos s) = dimensions s)
  && bool_decide (length (pbest_cost s) = n_particles s)
  && bool_decide (length (current_cost s) = n_particles s).

(** *** [update_pbest] *)
Definition update_pbest (s : Swarm) : list (list F) * list F :=
  let mask_cost := zip_with s_lt (current_cost s) (pbest_cost s) in
  let mask_pos := repeat_cols mask_cost (dimensions s) in
  let new_pbest_pos := np_where2 (np_not2 mask_pos) (pbest_pos s) (position s) in
  let new_pbest_cost := np_where (np_not mask_cost) (pbest_cost s) (current_cost s) in
  (new_pbest_pos, new_pbest_cost).

(** *** [update_gbest] *)
Definition update_gbest (s : Swarm) : result (list F * F) :=
  i ← np_argmin (pbest_cost s);
  best_pos ← index (pbest_pos s) i;
  best_cost ← np_min (pbest_cost s);
  Ok (best_pos, best_cost).

(** *** [update_gbest_neighborhood] *)

(** The [best_neighbor] array.  For [k = 1] the query returns a vector of
    indices, which is [concat] of the one-column rows. *)
Definition best_neighbors (s : Swarm) (k : Z) (idx : list (list nat))
    : result (list nat) :=
  if (k =? 1)%Z then
    costs ← take_idx (pbest_cost s) (concat idx);
    argmin_axis1 ((λ c, [c]) <$> costs)
  else
    cost_rows ← mapM (take_idx (pbest_cost s)) idx;
    idx_min ← argmin_axis1 cost_rows;
    pick idx idx_min.

(** The positions as [cKDTree] takes them. *)
Definition float64 (m : list (list F)) : list (list float) := mat_map as_float64 m.

(** The operator, for a given behaviour [query] of [tree.query]. *)
Definition update_gbest_neighborhood_with
    (query : list (list float) → list (list float) → Z → Z
             → result (list (list nat)))
    (s : Swarm) (p k : Z) : result (list F * F) :=
  idx ← query (float64 (position s)) (float64 (position s)) p k;
  best_neighbor ← best_neighbors s k idx;
  costs ← take_idx (pbest_cost s) best_neighbor;
  best_cost ← np_min costs;
  i ← np_argmin costs;
  best_pos ← index (pbest_pos s) i;
  Ok (best_pos, best_cost).

Definition update_gbest_neighborhood : Swarm → Z → Z → result (list F * F) :=
  update_gbest_neighborhood_with cKDTree_query.

(** *** [update_velocity]

    [r1] and [r2] are the two matrices [np.random.uniform(0, 1, swarm_size)]
    returns, in the order the operator draws them. *)
Definition temp_velocity (s : Swarm) (c1 c2 w : F) (r1 r2 : list (list F))
    : list (list F) :=
  let cognitive :=
    mat_zip s_mul (mat_map (s_mul c1) r1)
                  (mat_zip s_sub (pbest_pos s) (position s)) in
  let social :=
    mat_zip s_mul (mat_map (s_mul c2) r2)
                  (row_zip s_sub (best_pos s) (position s)) in
  mat_zip s_add (mat_zip s_add (mat_map (s_mul w) (velocity s)) cognitive) social.

Definition update_velocity (s : Swarm) (clamp : option (F * F))
    (r1 r2 : list (list F)) : result (list (list F)) :=
  c1 ← or_raise KeyError (behavior s !! "c1");
  c2 ← or_raise KeyError (behavior s !! "c2");
  w ← or_raise KeyError (behavior s !! "w");
  let temp_velocity := temp_velocity s c1 c2 w r1 r2 in
  match clamp with
  | None => Ok temp_velocity
  | Some (min_velocity, max_velocity) =>
      let mask :=
        mat_zip andb (mat_map (λ t, s_le min_velocity t) temp_velocity)
                     (mat_map (λ t, s_le t max_velocity) temp_velocity) in
      Ok (np_where2 (np_not2 mask) (velocity s) temp_velocity)
  end.

(** *** [update_position] *)
Definition update_position (s : Swarm) (bounds : option (list F * list F))
    : list (list F) :=
  let temp_position := mat_zip s_add (position s) (velocity s) in
  match bounds with
  | None => temp_position
  | Some (lb, ub) =>
      let min_bounds := replicate (n_particles s) lb in
      let max_bounds := replicate (n_particles s) ub in
      let mask :=
        zip_with andb (np_all_rows (mat_zip s_le min_bounds temp_position))
                      (np_all_rows (mat_zip s_le temp_position max_bounds)) in
      let mask := repeat_cols mask (dimensions s) in
      np_where2 (np_not2 mask) (position s) temp_position
  end.

(** *** Vocabulary of the statements *)

(** [m] is the least entry of [a]. *)
Definition is_min_of (m : F) (a : list F) : Prop :=
  m ∈ a ∧ ∀ x, x ∈ a → s_le m x = true.

(** [a !! i] is the first occurrence of the least entry [m] of [a]. *)
Definition is_first_argmin (i : nat) (m : F) (a : list F) : Prop :=
  a !! i = Some m ∧ is_min_of m a ∧
  ∀ j x, j < i → a !! j = Some x → s_lt m x = true.

(** [b] is a member of [row] whose entry of [costs] is the least one that
    the members of [row] have. *)
Definition row_best (costs : list F) (row : list nat) (b : nat) : Prop :=
  b ∈ row ∧
  ∃ c, costs !! b = Some c ∧
       ∀ j c', j ∈ row → costs !! j = Some c' → s_le c c' = true.

(** One row of the passes of [best_neighbors]: the costs of the row, their
    argmin, and the member of the row at that place. *)
Definition row_pass (costs : list F) (row : list nat) (b : nat) : Prop :=
  ∃ crow j,
    take_idx costs row = Ok crow ∧ np_argmin crow = Ok j ∧ index row j = Ok b.

(** No entry of [a] is NaN. *)
Definition no_nan (a : list F) : bool := forallb (λ x, negb (s_isnan x)) a.

(** [i] is the first index at which [a] holds a NaN, and [m] is that entry. *)
Definition is_first_nan (i : nat) (m : F) (a : list F) : Prop :=
  a !! i = Some m ∧ s_isnan m = true ∧
  ∀ j x, j < i → a !! j = Some x → s_isnan x = false.

(** [idx] is an index array of [n] rows of [k] neighbours, none missing:
    every entry is the index of a particle. *)
Definition index_array (n k : nat) (idx : list (list nat)) : bool :=
  has_shape n k idx && forallb (forallb (λ j, bool_decide (j < n))) idx.

(** Every particle is among its own neighbours. *)
Definition includes_self (idx : list (list nat)) : bool :=
  forallb id (imap (λ i row, bool_decide (i ∈ row)) idx).

(** Every particle is among the neighbours of every particle. *)
Definition includes_all (n : nat) (idx : list (list nat)) : bool :=
  forallb (λ row : list nat, forallb (λ j, bool_decide (j ∈ row)) (seq 0 n)) idx.

(** Every dimension of [row] lies within its bounds. *)
Definition within (lb ub row : list F) : Prop :=
  ∀ j l u x, lb !! j = Some l → ub !! j = Some u → row !! j = Some x →
    s_le l x = true ∧ s_le x u = true.

(** The entry of a matrix at row [i] and column [j]. *)
Definition cell {A} (m : list (list A)) (i j : nat) : option A :=
  row ← m !! i; row !! j.

(** The state after the caller has written a personal best back. *)
Definition with_pbest (s : Swarm) (pb : list (list F) * list F) : Swarm :=
  {| position := position s; velocity := velocity s;
     n_particles := n_particles s; dimensions := dimensions s;
     behavior := behavior s; pbest_pos := pb.1; best_pos := best_pos s;
     pbest_cost := pb.2; best_cost := best_cost s;
     current_cost := current_cost s |}.
End operators.

Arguments Swarm F : clear implicits.

(** ** Objects that are not swarms, and the log

    Every operator runs its body under [try], logs
    ['Please pass a Swarm class. You passed <type>'] on an AttributeError
    and raises it again; [update_velocity] does the same for a KeyError with
    ['Missing keyword in swarm.behavior'].  An object is described here by
    the printed form of its type and by its attributes, each present or
    absent; the attributes that are present hold values of the kind a swarm
    holds there, of the shapes a swarm declares.  The bodies below read the
    attributes in the order the source evaluates them.  The bounds of
    [update_position] come from the caller: their lengths are not the
    swarm's to declare, and the comparison with them broadcasts or raises
    as numpy's does. *)

Inductive raised := AttributeError | Lib (e : exn).

Inductive outcome (A : Type) :=
  | Returns (a : A)
  | Raises (e : raised).
Arguments Returns {A} a.
Arguments Raises {A} e.

#[export] Instance outcome_ret : MRet outcome := λ A a, Returns a.
#[export] Instance outcome_bind : MBind outcome := λ A B f m,
  match m with Returns a => f a | Raises e => Raises e end.

(** A call into numpy or scipy: its exception, if any, propagates. *)
Definition lib {A} (r : result A) : outcome A :=
  match r with Ok a => Returns a | Raise e => Raises (Lib e) end.

(** [obj.name]. *)
Definition getattr {A} (field : option A) : outcome A :=
  match field with Some a => Returns a | None => Raises AttributeError end.

Definition swarm_msg (type_repr : string) : string :=
  "Please pass a Swarm class. You passed " +:+ type_repr.

Definition key_msg : string := "Missing keyword in swarm.behavior".

(** [except AttributeError: logger.error(msg); raise], with the messages the
    call has logged. *)
Definition except_attribute {A} (type_repr : string) (body : outcome A)
    : list string * outcome A :=
  match body with
  | Raises AttributeError => ([swarm_msg type_repr], body)
  | _ => ([], body)
  end.

(** The two handlers of [update_velocity]. *)
Definition except_attribute_key {A} (type_repr : string) (body : outcome A)
    : list string * outcome A :=
  match body with
  | Raises AttributeError => ([swarm_msg type_repr], body)
  | Raises (Lib KeyError) => ([key_msg], body)
  | _ => ([], body)
  end.

(** An attribute of an object made from a swarm without the attributes
    named in [absent]. *)
Definition present {A} (absent : list string) (name : string) (a : A) : option A :=
  if bool_decide (name ∈ absent) then None else Some a.

Section objects.
Context {F : Type} `{Scalar F} `{AsFloat64 F}.

Record PyObj := {
  type_repr : string;                       (* str(type(obj)) *)
  o_position : option (list (list F));
  o_velocity : option (list (list F));
  o_n_particles : option nat;
  o_dimensions : option nat;
  o_behavior : option (gmap string F);
  o_pbest_pos : option (list (list F));
  o_best_pos : option (list F);
  o_pbest_cost : option (list F);
  o_best_cost : option F;
  o_current_cost : option (list F);
}.

Definition obj_of (ty : string) (s : Swarm F) (absent : list string) : PyObj := {|
  type_repr := ty;
  o_position := present absent "position" (position s);
  o_velocity := present absent "velocity" (velocity s);
  o_n_particles := present absent "n_particles" (n_particles s);
  o_dimensions := present absent "dimensions" (dimensions s);
  o_behavior := present absent "behavior" (behavior s);
  o_pbest_pos := present absent "pbest_pos" (pbest_pos s);
  o_best_pos := present absent "best_pos" (best_pos s);
  o_pbest_cost := present absent "pbest_cost" (pbest_cost s);
  o_best_cost := present absent "best_cost" (best_cost s);
  o_current_cost := present absent "current_cost" (current_cost s);
|}.

Definition update_pbest_obj (o : PyObj) : list string * outcome (list (list F) * list F) :=
  except_attribute (type_repr o) (
    dimensions ← getattr (o_dimensions o);
    current_cost ← getattr (o_current_cost o);
    pbest_cost ← getattr (o_pbest_cost o);
    let mask_cost := zip_with s_lt current_cost pbest_cost in
    dimensions ← getattr (o_dimensions o);
    let mask_pos := repeat_cols mask_cost dimensions in
    pbest_pos ← getattr (o_pbest_pos o);
    position ← getattr (o_position o);
    let new_pbest_pos := np_where2 (np_not2 mask_pos) pbest_pos position in
    pbest_cost ← getattr (o_pbest_cost o);
    current_cost ← getattr (o_current_cost o);
    let new_pbest_cost := np_where (np_not mask_cost) pbest_cost current_cost in
    Returns (new_pbest_pos, new_pbest_cost)).

Definition update_gbest_obj (o : PyObj) : list string * outcome (list F * F) :=
  except_attribute (type_repr o) (
    pbest_pos ← getattr (o_pbest_pos o);
    pbest_cost ← getattr (o_pbest_cost o);
    i ← lib (np_argmin pbest_cost);
    best_pos ← lib (index pbest_pos i);
    pbest_cost ← getattr (o_pbest_cost o);
    best_cost ← lib (np_min pbest_cost);
    Returns (best_pos, best_cost)).

Definition update_gbest_neighborhood_obj
    (query : list (list float) → list (list float) → Z → Z
             → result (list (list nat)))
    (o : PyObj) (p k : Z) : list string * outcome (list F * F) :=
  except_attribute (type_repr o) (
    data ← getattr (o_position o);
    x ← getattr (o_position o);
    idx ← lib (query (float64 data) (float64 x) p k);
    best_neighbor ←
      (if (k =? 1)%Z then
         pbest_cost ← getattr (o_pbest_cost o);
         costs ← lib (take_idx pbest_cost (concat idx));
         lib (argmin_axis1 ((λ c, [c]) <$> costs))
       else
         pbest_cost ← getattr (o_pbest_cost o);
         cost_rows ← lib (mapM (take_idx pbest_cost) idx);
         idx_min ← lib (argmin_axis1 cost_rows);
         lib (pick idx idx_min));
    pbest_cost ← getattr (o_pbest_cost o);
    costs ← lib (take_idx pbest_cost best_neighbor);
    best_cost ← lib (np_min costs);
    pbest_pos ← getattr (o_pbest_pos o);
    pbest_cost ← getattr (o_pbest_cost o);
    costs ← lib (take_idx pbest_cost best_neighbor);
    i ← lib (np_argmin costs);
    best_pos ← lib (index pbest_pos i);
    Returns (best_pos, best_cost)).

Definition update_velocity_obj (o : PyObj) (clamp : option (F * F))
    (r1 r2 : list (list F)) : list string * outcome (list (list F)) :=
  except_attribute_key (type_repr o) (
    _ ← getattr (o_position o);
    behavior ← getattr (o_behavior o);
    c1 ← lib (or_raise KeyError (behavior !! "c1"));
    behavior ← getattr (o_behavior o);
    c2 ← lib (or_raise KeyError (behavior !! "c2"));
    behavior ← getattr (o_behavior o);
    w ← lib (or_raise KeyError (behavior !! "w"));
    pbest_pos ← getattr (o_pbest_pos o);
    position ← getattr (o_position o);
    let cognitive :=
      mat_zip s_mul (mat_map (s_mul c1) r1) (mat_zip s_sub pbest_pos position) in
    best_pos ← getattr (o_best_pos o);
    position ← getattr (o_position o);
    let social :=
      mat_zip s_mul (mat_map (s_mul c2) r2) (row_zip s_sub best_pos position) in
    velocity ← getattr (o_velocity o);
    let temp_velocity :=
      mat_zip s_add (mat_zip s_add (mat_map (s_mul w) velocity) cognitive) social in
    match clamp with
    | None => Returns temp_velocity
    | Some (min_velocity, max_velocity) =>
        let mask :=
          mat_zip andb (mat_map (λ t, s_le min_velocity t) temp_velocity)
                       (mat_map (λ t, s_le t max_velocity) temp_velocity) in
        velocity ← getattr (o_velocity o);
        Returns (np_where2 (np_not2 mask) velocity temp_velocity)
    end).

Definition update_position_obj (o : PyObj) (bounds : option (list F * list F))
    : list string * outcome (list (list F)) :=
  except_attribute (type_repr o) (
    position ← getattr (o_position o);
    velocity ← getattr (o_velocity o);
    let temp_position := mat_zip s_add position velocity in
    match bounds with
    | None => Returns temp_position
    | Some (lb, ub) =>
        n_particles ← getattr (o_n_particles o);
        let min_bounds := replicate n_particles lb in
        n_particles ← getattr (o_n_particles o);
        let max_bounds := replicate n_particles ub in
        lower ← lib (np_le2 min_bounds temp_position);
        upper ← lib (np_le2 temp_position max_bounds);
        let mask := zip_with andb (np_all_rows lower) (np_all_rows upper) in
        dimensions ← getattr (o_dimensions o);
        let mask := repeat_cols mask dimensions in
        position ← getattr (o_position o);
        Returns (np_where2 (np_not2 mask) position temp_position)
    end).
End objects.

Arguments PyObj F : clear implicits.

(** ** Example swarms *)

(** Two particles in one dimension, on binary64 floats. *)
Definition two_particles : Swarm float := {|
  position := [[1.0]; [4.0]]%float;
  velocity := [[0.25]; [-0.5]]%float;
  n_particles := 2; dimensions := 1;
  behavior := {[ "c1" := 0.5%float; "c2" := 0.25%float; "w" := 0.75%float ]};
  pbest_pos := [[0.0]; [5.0]]%float; best_pos := [5.0]%float;
  pbest_cost := [2.0; 1.0]%float; best_cost := 1.0%float;
  current_cost := [3.0; 1.5]%float;
|}.

(** Two draws of the random source for [two_particles]. *)
Definition draw1 : list (list float) := [[0.5]; [0.5]]%float.
Definition draw2 : list (list float) := [[0.25]; [0.75]]%float.

(** Three particles on a line, on binary64 floats and on integers. *)
Definition three_particles : Swarm float := {|
  position := [[0.0]; [1.0]; [10.0]]%float;
  velocity := [[1.0]; [-1.0]; [2.0]]%float;
  n_particles := 3; dimensions := 1;
  behavior := ∅;
  pbest_pos := [[0.5]; [1.5]; [9.0]]%float; best_pos := [1.5]%float;
  pbest_cost := [5.0; 1.0; 7.0]%float; best_cost := 1.0%float;
  current_cost := [4.0; 3.0; 7.0]%float;
|}.

Definition three_particles_Z : Swarm Z := {|
  position := [[0]; [1]; [10]]%Z;
  velocity := [[1]; [-1]; [2]]%Z;
  n_particles := 3; dimensions := 1;
  behavior := ∅;
  pbest_pos := [[0]; [2]; [9]]%Z; best_pos := [2%Z];
  pbest_cost := [5; 1; 7]%Z; best_cost := 1%Z;
  current_cost := [4; 3; 7]%Z;
|}.

(** [three_particles_Z] with the coefficients of an optimiser, and two draws
    for it. *)
Definition three_particles_Z_pso : Swarm Z := {|
  position := [[0]; [1]; [10]]%Z;
  velocity := [[1]; [-1]; [2]]%Z;
  n_particles := 3; dimensions := 1;
  behavior := {[ "c1" := 2%Z; "c2" := 2%Z; "w" := 1%Z ]};
  pbest_pos := [[0]; [2]; [9]]%Z; best_pos := [2%Z];
  pbest_cost := [5; 1; 7]%Z; best_cost := 1%Z;
  current_cost := [4; 3; 7]%Z;
|}.

Definition draw1_Z : list (list Z) := [[1]; [0]; [1]]%Z.
Definition draw2_Z : list (list Z) := [[0]; [1]; [1]]%Z.

(** [two_particles] after an objective function has returned NaN for the
    second particle. *)
Definition nan_particles : Swarm float := {|
  position := [[1.0]; [4.0]]%float;
  velocity := [[0.25]; [-0.5]]%float;
  n_particles := 2; dimensions := 1;
  behavior := ∅;
  pbest_pos := [[0.0]; [5.0]]%float; best_pos := [5.0]%float;
  pbest_cost := [2.0; 1.0]%float; best_cost := 1.0%float;
  current_cost := [3.0%float; PrimFloat.nan];
|}.

(** Three particles at 0, 2^-600 and 2^-599: pairwise distinct, and so close
    that the square of every distance between them underflows to 0. *)
Definition close_particles : Swarm float := {|
  position := [[0.0]; [0x1p-600]; [0x1p-599]]%float;
  velocity := [[0.0]; [0.0]; [0.0]]%float;
  n_particles := 3; dimensions := 1;
  behavior := ∅;
  pbest_pos := [[0.0]; [0x1p-600]; [0x1p-599]]%float; best_pos := [0x1p-599]%float;
  pbest_cost := [5.0; 5.0; 1.0]%float; best_cost := 1.0%float;
  current_cost := [5.0; 5.0; 1.0]%float;
|}.

(** Three particles at 0, 2^700 and -2^700: finite, pairwise distinct, and so
    far apart that the square of every distance between two of them
    overflows. *)
Definition far_particles : Swarm float := {|
  position := [[0.0]; [0x1p+700]; [-0x1p+700]]%float;
  velocity := [[0.0]; [0.0]; [0.0]]%float;
  n_particles := 3; dimensions := 1;
  behavior := ∅;
  pbest_pos := [[0.0]; [0x1p+700]; [-0x1p+700]]%float; best_pos := [0.0]%float;
  pbest_cost := [5.0; 5.0; 1.0]%float; best_cost := 1.0%float;
  current_cost := [5.0; 5.0; 1.0]%float;
|}.

(** [two_particles] with a NaN among the personal-best costs. *)
Definition nan_pbest_particles : Swarm float := {|
  position := [[1.0]; [4.0]]%float;
  velocity := [[0.25]; [-0.5]]%float;
  n_particles := 2; dimensions := 1;
  behavior := ∅;
  pbest_pos := [[0.0]; [5.0]]%float; best_pos := [5.0]%float;
  pbest_cost := [2.0%float; PrimFloat.nan]; best_cost := 1.0%float;
  current_cost := [3.0; 1.5]%float;
|}.

(** What [str(type(obj))] gives for a dict. *)
Definition dict_type : string := "<class 'dict'>".

(** * Properties *)

(** ** The laws on integers and on floats *)

#[export] Instance Z_order_laws : OrderLaws Z.
Proof. split; simpl; intros; lia. Qed.

#[export] Instance Z_compare_laws : CompareLaws Z.
Proof. split; unfold s_isnan; simpl; intros; lia. Qed.

(** No float is below itself, NaN included. *)
Lemma float_lt_irrefl (x : float) : PrimFloat.ltb x x = false.
Proof.
  rewrite ltb_spec. unfold SFltb, SFcompare.
  destruct (Prim2SF x) as [s|s| |s m e]; try done.
  - by destruct s.
  - destruct s; rewrite Z.compare_refl, Pos.compare_cont_refl; done.
Qed.

(** The comparison of the specification of binary64. *)
Lemma SFcompare_refl (x : spec_float) :
  x ≠ S754_nan → SFcompare x x = Some Eq.
Proof.
  destruct x as [s|s| |s m e]; simpl; try done.
  - by destruct s.
  - intros _. destruct s; rewrite Z.compare_refl, Pos.compare_cont_refl; done.
Qed.

Lemma SFcompare_antisym (x y : spec_float) :
  SFcompare y x = CompOpp <$> SFcompare x y.
Proof.
  destruct x as [sx|sx| |sx mx ex], y as [sy|sy| |sy my ey]; simpl; try done;
    try (by destruct sx); try (by destruct sy); try (by destruct sx, sy).
  change (Pos.compare_cont Eq) with Pos.compare.
  destruct sx, sy; simpl; try done;
    rewrite (Z.compare_antisym ex ey); destruct (ex ?= ey)%Z; simpl; try done;
    rewrite (Pos.compare_antisym mx my); try done.
Qed.

Lemma SFleb_trans (x y z : spec_float) :
  SFleb x y = true → SFleb y z = true → SFleb x z = true.
Proof.
  unfold SFleb, SFcompare.
  destruct x as [sx|sx| |sx mx ex], y as [sy|sy| |sy my ey],
           z as [sz|sz| |sz mz ez]; try done;
    try destruct sx; try destruct sy; try destruct sz; try done;
    change (Pos.compare_cont Eq) with Pos.compare;
    repeat match goal with
           | |- context [(?a ?= ?b)%Z] => destruct (Z.compare_spec a b); subst
           end;
    try done; try lia;
    repeat match goal with
           | |- context [(?a ?= ?b)%positive] =>
               destruct (Pos.compare_spec a b); subst
           end;
    simpl; try done; try lia.
Qed.

Lemma SFleb_number (x y : spec_float) :
  SFleb x y = true → SFleb x x = true ∧ SFleb y y = true.
Proof.
  intros Hle. assert (x ≠ S754_nan ∧ y ≠ S754_nan) as [Hx Hy].
  { unfold SFleb, SFcompare in Hle. split; intros ->; [done|by destruct x]. }
  unfold SFleb. by rewrite !SFcompare_refl.
Qed.

Lemma SFltb_not_leb (x y : spec_float) :
  SFleb x x = true → SFleb y y = true → SFltb x y = negb (SFleb y x).
Proof.
  intros Hx Hy. unfold SFltb, SFleb. rewrite (SFcompare_antisym x y).
  destruct (SFcompare x y) as [[]|] eqn:Hc; simpl; try done.
  unfold SFleb, SFcompare in *. by destruct x, y.
Qed.

#[export] Instance float_compare_laws : CompareLaws float.
Proof.
  split; unfold s_isnan; simpl.
  - intros x y. rewrite !leb_spec. intros [Hx Hy]%SFleb_number. by rewrite Hx, Hy.
  - intros x y. rewrite ltb_spec, leb_spec. unfold SFltb, SFleb.
    by destruct (SFcompare _ _) as [[]|].
  - intros x y. rewrite ltb_spec, !leb_spec.
    intros Hx%negb_false_iff Hy%negb_false_iff. by apply SFltb_not_leb.
  - intros x y z. rewrite !leb_spec. apply SFleb_trans.
Qed.

(** [s_isnan] on floats is the NaN test of the float library. *)
Lemma float_isnan (x : float) : s_isnan x = PrimFloat.is_nan x.
Proof.
  unfold s_isnan, PrimFloat.is_nan. simpl.
  rewrite leb_spec, FloatAxioms.eqb_spec. unfold SFleb, SFeqb.
  destruct (Prim2SF x) as [sx|sx| |sx mx ex] eqn:Hx; [| |done|];
    by rewrite SFcompare_refl.
Qed.

(** ** Lookups in the array operations *)

Section numpy_facts.
Context {F : Type} `{Scalar F}.

Lemma np_where_lookup {A} (cond : list bool) (x y : list A) i :
  np_where cond x y !! i =
    c ← cond !! i; a ← x !! i; b ← y !! i; Some (if c : bool then a else b).
Proof.
  revert x y i. induction cond as [|c cond IH]; intros [|a x] [|b y] [|i]; simpl;
    try done;
    repeat match goal with
           | |- context [?l !! ?j ≫= _] => destruct (l !! j); simpl
           end; done.
Qed.

Lemma np_where2_lookup {A} (cond : list (list bool)) (x y : list (list A)) i :
  np_where2 cond x y !! i =
    c ← cond !! i; a ← x !! i; b ← y !! i; Some (np_where c a b).
Proof.
  revert x y i. induction cond as [|c cond IH]; intros [|a x] [|b y] [|i]; simpl;
    try done;
    repeat match goal with
           | |- context [?l !! ?j ≫= _] => destruct (l !! j); simpl
           end; done.
Qed.

Lemma np_where_replicate {A} (b : bool) d (x y : list A) :
  length x = d → length y = d →
  np_where (replicate d b) x y = if b then x else y.
Proof.
  intros <-. revert y. induction x as [|a x IH]; intros [|c y] Hy; simpl in *;
    try done.
  - by destruct b.
  - rewrite IH; [|lia]. by destruct b.
Qed.

Lemma has_shape_spec {A} n d (m : list (list A)) :
  has_shape n d m = true ↔
  length m = n ∧ ∀ i row, m !! i = Some row → length row = d.
Proof.
  unfold has_shape. rewrite andb_true_iff, bool_decide_eq_true, forallb_forall.
  split; intros [Hn Hd]; split; try done.
  - intros i row Hi. eapply bool_decide_eq_true_1, Hd.
    apply list_elem_of_In, list_elem_of_lookup. eauto.
  - intros row [i Hi]%list_elem_of_In%list_elem_of_lookup.
    apply bool_decide_eq_true_2. eauto.
Qed.

Lemma has_shape_lookup {A} n d (m : list (list A)) i :
  has_shape n d m = true → i < n → ∃ row, m !! i = Some row ∧ length row = d.
Proof.
  intros [Hn Hd]%has_shape_spec Hi.
  destruct (lookup_lt_is_Some_2 m i) as [row Hrow]; [lia|]. eauto.
Qed.
End numpy_facts.

(** ** Consequences of the order laws *)

Section order_facts.
Context {F : Type} `{OrderLaws F}.

Lemma le_of_not_lt (x y : F) : s_lt y x = false → s_le x y = true.
Proof. intros Hlt. by rewrite le_not_lt, Hlt. Qed.

Lemma le_refl (x : F) : s_le x x = true.
Proof. apply le_of_not_lt, lt_irrefl. Qed.

Lemma lt_asym (x y : F) : s_lt x y = true → s_lt y x = false.
Proof.
  intros Hxy. destruct (s_lt y x) eqn:Hyx; [|done].
  by rewrite <-(lt_irrefl x), (lt_trans x y x).
Qed.

Lemma le_of_lt (x y : F) : s_lt x y = true → s_le x y = true.
Proof. intros Hxy. by apply le_of_not_lt, lt_asym. Qed.

Lemma not_lt_of_le (x y : F) : s_le x y = true → s_lt y x = false.
Proof. rewrite le_not_lt. by destruct (s_lt y x). Qed.

Lemma le_antisym (x y : F) : s_le x y = true → s_le y x = true → x = y.
Proof. intros Hxy%not_lt_of_le Hyx%not_lt_of_le. by apply lt_connected. Qed.

Lemma lt_le_trans (x y z : F) :
  s_lt x y = true → s_le y z = true → s_lt x z = true.
Proof.
  intros Hxy Hyz%not_lt_of_le. destruct (s_lt z y) eqn:Hzy; [done|].
  destruct (s_lt y z) eqn:Hyz'; [by eapply lt_trans|].
  by rewrite (lt_connected z y).
Qed.

Lemma le_lt_trans (x y z : F) :
  s_le x y = true → s_lt y z = true → s_lt x z = true.
Proof.
  intros Hxy%not_lt_of_le Hyz. destruct (s_lt x y) eqn:Hxy'; [by eapply lt_trans|].
  by rewrite (lt_connected x y).
Qed.

Lemma le_trans (x y z : F) :
  s_le x y = true → s_le y z = true → s_le x z = true.
Proof.
  intros Hxy Hyz. apply le_of_not_lt. destruct (s_lt z x) eqn:Hzx; [|done].
  apply not_lt_of_le in Hyz. by rewrite (lt_le_trans z x y) in Hyz.
Qed.

Lemma le_total (x y : F) : s_le x y = true ∨ s_le y x = true.
Proof.
  destruct (s_lt y x) eqn:Hyx; [right; by apply le_of_lt|left; by apply le_of_not_lt].
Qed.
End order_facts.

(** A total order is in particular what [CompareLaws] asks for, and none
    of its values is NaN. *)
#[export] Instance order_compare_laws {F : Type} `{OrderLaws F} : CompareLaws F.
Proof.
  split.
  - intros x y _. unfold s_isnan. by rewrite !le_refl.
  - apply le_of_lt.
  - intros x y _ _. rewrite le_not_lt. by destruct (s_lt x y).
  - apply le_trans.
Qed.

(** ** Consequences of the laws of comparison *)

Section compare_facts.
Context {F : Type} `{CompareLaws F}.

Lemma cmp_le_refl (x : F) : s_isnan x = false → s_le x x = true.
Proof. unfold s_isnan. by destruct (s_le x x). Qed.

Lemma cmp_lt_number (x y : F) :
  s_lt x y = true → s_isnan x = false ∧ s_isnan y = false.
Proof. intros Hlt%cmp_lt_le. by apply cmp_le_number. Qed.

Lemma cmp_le_of_not_lt (x y : F) :
  s_isnan x = false → s_isnan y = false → s_lt y x = false → s_le x y = true.
Proof.
  intros Hx Hy. rewrite (cmp_lt_not_le y x Hy Hx). by destruct (s_le x y).
Qed.

Lemma cmp_lt_of_not_le (x y : F) :
  s_isnan x = false → s_isnan y = false → s_le x y = false → s_lt y x = true.
Proof. intros Hx Hy Hle. by rewrite (cmp_lt_not_le y x Hy Hx), Hle. Qed.

Lemma cmp_not_le_of_lt (x y : F) : s_lt x y = true → s_le y x = false.
Proof.
  intros Hlt. destruct (cmp_lt_number _ _ Hlt) as [Hx Hy].
  rewrite (cmp_lt_not_le x y Hx Hy) in Hlt. by destruct (s_le y x).
Qed.

Lemma cmp_lt_le_trans (x y z : F) :
  s_lt x y = true → s_le y z = true → s_lt x z = true.
Proof.
  intros Hxy Hyz. destruct (cmp_lt_number _ _ Hxy) as [Hx Hy].
  destruct (cmp_le_number _ _ Hyz) as [_ Hz].
  rewrite (cmp_lt_not_le x z Hx Hz). destruct (s_le z x) eqn:Hzx; [|done].
  pose proof (cmp_le_trans _ _ _ Hyz Hzx) as Hyx.
  by rewrite (cmp_not_le_of_lt _ _ Hxy) in Hyx.
Qed.

Lemma no_nan_spec (a : list F) :
  no_nan a = true ↔ Forall (λ x, s_isnan x = false) a.
Proof.
  unfold no_nan. rewrite forallb_forall, Forall_forall. split.
  - intros Hall x Hx%list_elem_of_In. apply negb_true_iff. by apply Hall.
  - intros Hall x Hx%list_elem_of_In. apply negb_true_iff. by apply Hall.
Qed.
End compare_facts.

(** ** [update_pbest] *)

Section update_pbest_facts.
Context {F : Type} `{Scalar F}.

Lemma swarm_wf_elim (s : Swarm F) :
  swarm_wf s = true →
  has_shape (n_particles s) (dimensions s) (position s) = true ∧
  has_shape (n_particles s) (dimensions s) (velocity s) = true ∧
  has_shape (n_particles s) (dimensions s) (pbest_pos s) = true ∧
  length (best_pos s) = dimensions s ∧
  length (pbest_cost s) = n_particles s ∧
  length (current_cost s) = n_particles s.
Proof.
  unfold swarm_wf. rewrite !andb_true_iff, !bool_decide_eq_true. tauto.
Qed.

(** What [update_pbest] leaves at particle [i]. *)
Lemma update_pbest_cost_lookup (s : Swarm F) i :
  (update_pbest s).2 !! i =
    cur ← current_cost s !! i; pb ← pbest_cost s !! i;
    Some (if s_lt cur pb then cur else pb).
Proof.
  unfold update_pbest, np_not. simpl.
  rewrite np_where_lookup, list_lookup_fmap, lookup_zip_with.
  destruct (current_cost s !! i) as [cur|]; simpl; [|done].
  destruct (pbest_cost s !! i) as [pb|]; simpl; [|done].
  by destruct (s_lt cur pb).
Qed.

Lemma update_pbest_pos_lookup (s : Swarm F) i :
  (update_pbest s).1 !! i =
    cur ← current_cost s !! i; pb ← pbest_cost s !! i;
    pp ← pbest_pos s !! i; x ← position s !! i;
    Some (np_where (replicate (dimensions s) (negb (s_lt cur pb))) pp x).
Proof.
  unfold update_pbest, np_not2, np_not, repeat_cols. simpl.
  rewrite np_where2_lookup, !list_lookup_fmap, lookup_zip_with.
  destruct (current_cost s !! i) as [cur|]; simpl; [|done].
  destruct (pbest_cost s !! i) as [pb|]; simpl; [|done].
  by rewrite fmap_replicate.
Qed.
End update_pbest_facts.

Section update_pbest_theorems.
Context {F : Type} `{CompareLaws F}.

Lemma is_min_of_pair (cur pb : F) :
  s_isnan cur = false → s_isnan pb = false →
  is_min_of (if s_lt cur pb then cur else pb) [pb; cur].
Proof.
  intros Hcur Hpb. destruct (s_lt cur pb) eqn:Hlt; split.
  - apply elem_of_cons. right. by apply list_elem_of_singleton.
  - intros y [->|Hy%list_elem_of_singleton]%elem_of_cons; [|subst y].
    + by apply cmp_lt_le.
    + by apply cmp_le_refl.
  - apply elem_of_cons. by left.
  - intros y [->|Hy%list_elem_of_singleton]%elem_of_cons; [|subst y].
    + by apply cmp_le_refl.
    + by apply cmp_le_of_not_lt.
Qed.

(** C1.  In a swarm of consistent shapes, over binary64 floats as over
    integers, [update_pbest] returns arrays of the shapes of its inputs, and
    for every particle [i]: where neither [pbest_cost[i]] nor
    [current_cost[i]] is NaN the new personal-best cost is the minimum of the
    two; when [current_cost[i] < pbest_cost[i]] strictly the new personal
    best is [position[i]] with cost [current_cost[i]]; on a tie or a larger
    current cost (or a NaN, which is below nothing) the old [pbest_pos[i]]
    and [pbest_cost[i]] are carried forward.  So the new position is
    [position[i]] exactly when the cost improved strictly (where the two
    candidate rows differ at all). *)
Theorem update_pbest_spec (s : Swarm F) :
  swarm_wf s = true →
  has_shape (n_particles s) (dimensions s) (update_pbest s).1 = true ∧
  length (update_pbest s).2 = n_particles s ∧
  ∀ i, i < n_particles s →
    ∃ cur pb x pp,
      current_cost s !! i = Some cur ∧ pbest_cost s !! i = Some pb ∧
      position s !! i = Some x ∧ pbest_pos s !! i = Some pp ∧
      (s_isnan cur = false → s_isnan pb = false →
         ∃ m, (update_pbest s).2 !! i = Some m ∧ is_min_of m [pb; cur]) ∧
      (s_lt cur pb = true →
         (update_pbest s).1 !! i = Some x ∧ (update_pbest s).2 !! i = Some cur) ∧
      (s_lt cur pb = false →
         (update_pbest s).1 !! i = Some pp ∧ (update_pbest s).2 !! i = Some pb) ∧
      (x ≠ pp → ((update_pbest s).1 !! i = Some x ↔ s_lt cur pb = true)).
Proof.
  intros (Hpos & _ & Hpp & _ & Hpc & Hcc)%swarm_wf_elim.
  assert (Hrow : ∀ i, i < n_particles s →
    ∃ cur pb x pp,
      current_cost s !! i = Some cur ∧ pbest_cost s !! i = Some pb ∧
      position s !! i = Some x ∧ pbest_pos s !! i = Some pp ∧
      length x = dimensions s ∧ length pp = dimensions s).
  { intros i Hi.
    destruct (lookup_lt_is_Some_2 (current_cost s) i) as [cur Hcur]; [lia|].
    destruct (lookup_lt_is_Some_2 (pbest_cost s) i) as [pb Hpb]; [lia|].
    destruct (has_shape_lookup _ _ _ i Hpos Hi) as (x & Hx & Hxd).
    destruct (has_shape_lookup _ _ _ i Hpp Hi) as (pp & Hp & Hpd).
    by exists cur, pb, x, pp. }
  assert (Hnew : ∀ i, i < n_particles s →
    ∃ cur pb x pp,
      current_cost s !! i = Some cur ∧ pbest_cost s !! i = Some pb ∧
      position s !! i = Some x ∧ pbest_pos s !! i = Some pp ∧
      length x = dimensions s ∧ length pp = dimensions s ∧
      (update_pbest s).1 !! i = Some (if s_lt cur pb then x else pp) ∧
      (update_pbest s).2 !! i = Some (if s_lt cur pb then cur else pb)).
  { intros i Hi. destruct (Hrow i Hi) as (cur & pb & x & pp & Hc & Hb & Hx & Hp & Hxd & Hpd).
    exists cur, pb, x, pp. repeat split; try done.
    - rewrite update_pbest_pos_lookup, Hc, Hb, Hx, Hp. simpl.
      rewrite np_where_replicate by done. by destruct (s_lt cur pb).
    - by rewrite update_pbest_cost_lookup, Hc, Hb. }
  split; [|split].
  - apply has_shape_spec. split.
    + apply Nat.le_antisymm.
      * apply Nat.nlt_ge. intros Hlt.
        destruct (lookup_lt_is_Some_2 (update_pbest s).1 (n_particles s)) as [r Hr]; [lia|].
        rewrite update_pbest_pos_lookup in Hr.
        rewrite (lookup_ge_None_2 (current_cost s)) in Hr by lia. done.
      * apply Nat.nlt_ge. intros Hlt.
        destruct (n_particles s) as [|n] eqn:Hn; [lia|].
        destruct (Hnew n) as (? & ? & ? & ? & _ & _ & _ & _ & _ & _ & Hr & _); [lia|].
        apply lookup_lt_Some in Hr. lia.
    + intros i row Hi.
      destruct (decide (i < n_particles s)) as [Hlt|Hge].
      * destruct (Hnew i Hlt) as (cur & pb & x & pp & _ & _ & _ & _ & Hxd & Hpd & Hr & _).
        rewrite Hr in Hi. injection Hi as <-. by destruct (s_lt cur pb).
      * rewrite update_pbest_pos_lookup in Hi.
        rewrite (lookup_ge_None_2 (current_cost s)) in Hi by lia. done.
  - apply Nat.le_antisymm.
    + apply Nat.nlt_ge. intros Hlt.
      destruct (lookup_lt_is_Some_2 (update_pbest s).2 (n_particles s)) as [r Hr]; [lia|].
      rewrite update_pbest_cost_lookup in Hr.
      rewrite (lookup_ge_None_2 (current_cost s)) in Hr by lia. done.
    + apply Nat.nlt_ge. intros Hlt.
      destruct (n_particles s) as [|n] eqn:Hn; [lia|].
      destruct (Hnew n) as (? & ? & ? & ? & _ & _ & _ & _ & _ & _ & _ & Hr); [lia|].
      apply lookup_lt_Some in Hr. lia.
  - intros i Hi.
    destruct (Hnew i Hi) as (cur & pb & x & pp & Hc & Hb & Hx & Hp & _ & _ & Hr1 & Hr2).
    exists cur, pb, x, pp. split_and!; try done.
    + intros Hcur Hpb. exists (if s_lt cur pb then cur else pb). split; [done|].
      by apply is_min_of_pair.
    + intros Hlt. by rewrite Hr1, Hr2, Hlt.
    + intros Hlt. by rewrite Hr1, Hr2, Hlt.
    + intros Hne. rewrite Hr1. destruct (s_lt cur pb); [done|].
      split; [congruence|done].
Qed.
End update_pbest_theorems.

Section update_pbest_idempotence.
Context {F : Type} `{Scalar F}.

Lemma np_where_keep {A} d (b : bool) (pp x : list A) :
  np_where (replicate d true) (np_where (replicate d b) pp x) x =
  np_where (replicate d b) pp x.
Proof.
  apply list_eq. intros j. rewrite !np_where_lookup.
  destruct (replicate d true !! j) as [c|] eqn:Hc; simpl.
  - apply lookup_replicate in Hc as [-> Hj].
    rewrite (lookup_replicate_2 d b j Hj). simpl.
    destruct (pp !! j); simpl; [|done]. by destruct (x !! j).
  - apply lookup_replicate_None in Hc.
    by rewrite (proj1 (lookup_replicate_None d b j) Hc).
Qed.

(** C8.  [update_pbest] is idempotent: after the returned [pbest_pos] and
    [pbest_cost] are written back into the state, a second application with
    the same [current_cost] returns the same pair again.  All it needs of
    the scalars is that no value is below itself. *)
Theorem update_pbest_idempotent (s : Swarm F) :
  (∀ x : F, s_lt x x = false) →
  update_pbest (with_pbest s (update_pbest s)) = update_pbest s.
Proof.
  intros Hirr.
  rewrite (surjective_pairing (update_pbest (with_pbest _ _))).
  rewrite (surjective_pairing (update_pbest s)) at 3.
  f_equal; apply list_eq; intros i.
  - rewrite update_pbest_pos_lookup.
    cbn [with_pbest current_cost pbest_cost pbest_pos position dimensions].
    rewrite update_pbest_cost_lookup, update_pbest_pos_lookup.
    destruct (current_cost s !! i) as [cur|]; simpl; [|done].
    destruct (pbest_cost s !! i) as [pb|]; simpl; [|done].
    destruct (pbest_pos s !! i) as [pp|]; simpl; [|done].
    destruct (position s !! i) as [x|]; simpl; [|done].
    assert (s_lt cur (if s_lt cur pb then cur else pb) = false) as ->.
    { by destruct (s_lt cur pb) eqn:Hlt. }
    simpl. by rewrite np_where_keep.
  - rewrite update_pbest_cost_lookup.
    cbn [with_pbest current_cost pbest_cost]. rewrite update_pbest_cost_lookup.
    destruct (current_cost s !! i) as [cur|]; simpl; [|done].
    destruct (pbest_cost s !! i) as [pb|]; simpl; [|done].
    by destruct (s_lt cur pb) eqn:Hlt; rewrite ?Hirr, ?Hlt.
Qed.
End update_pbest_idempotence.

(** ** [np.argmin] and [np.min] *)

Section argmin_scan.
Context {F : Type} `{Scalar F}.

Lemma argmin_from_lt (a : list F) bi b i :
  bi < i → argmin_from bi b i a < i + length a.
Proof.
  revert bi b i. induction a as [|x a IH]; intros bi b i Hbi; simpl; [lia|].
  destruct (s_isnan b); [lia|]. destruct (s_le b x).
  - specialize (IH bi b (S i)). lia.
  - specialize (IH i x (S i)). lia.
Qed.

Lemma np_argmin_Ok (a : list F) :
  a ≠ [] → ∃ i, np_argmin a = Ok i ∧ i < length a.
Proof.
  destruct a as [|x a]; [done|]. intros _. eexists. split; [done|].
  simpl. pose proof (argmin_from_lt a 0 x 1). lia.
Qed.

Lemma np_min_Ok (a : list F) : a ≠ [] → ∃ m, np_min a = Ok m.
Proof. destruct a as [|x a]; [done|]. intros _. by eexists. Qed.

(** Once the reduction holds a NaN it keeps it. *)
Lemma foldl_minimum_nan (b : F) (a : list F) :
  s_isnan b = true → foldl np_minimum b a = b.
Proof.
  intros Hb. induction a as [|x a IH]; simpl; [done|].
  unfold np_minimum at 2. by rewrite Hb, orb_true_r.
Qed.

(** [np.min] returns the entry at the index [np.argmin] returns, whatever
    the scalars are. *)
Lemma argmin_from_min (a pre : list F) bi b :
  pre !! bi = Some b →
  (pre ++ a) !! argmin_from bi b (length pre) a = Some (foldl np_minimum b a).
Proof.
  revert pre bi b. induction a as [|x a IH]; intros pre bi b Hbi; simpl.
  - by rewrite app_nil_r.
  - destruct (s_isnan b) eqn:Hb.
    + unfold np_minimum at 2. rewrite Hb, orb_true_r.
      rewrite foldl_minimum_nan by done.
      rewrite lookup_app_l; [done|]. by eapply lookup_lt_Some.
    + replace (pre ++ x :: a) with ((pre ++ [x]) ++ a) by by rewrite <-app_assoc.
      replace (S (length pre)) with (length (pre ++ [x]))
        by (rewrite length_app; simpl; lia).
      unfold np_minimum at 2. rewrite Hb, orb_false_r.
      destruct (s_le b x).
      * apply IH. rewrite lookup_app_l; [done|]. by eapply lookup_lt_Some.
      * apply IH. by apply list_lookup_middle.
Qed.

Lemma np_argmin_min (a : list F) i :
  np_argmin a = Ok i → ∃ m, np_min a = Ok m ∧ a !! i = Some m.
Proof.
  destruct a as [|x a]; [done|]. intros [= <-]. eexists. split; [done|].
  apply (argmin_from_min a [x] 0 x). done.
Qed.
End argmin_scan.

Section argmin_facts.
Context {F : Type} `{CompareLaws F}.

Lemma argmin_from_first (a pre : list F) bi b :
  Forall (λ x, s_isnan x = false) a →
  pre !! bi = Some b →
  (∀ x, x ∈ pre → s_le b x = true) →
  (∀ j x, j < bi → pre !! j = Some x → s_lt b x = true) →
  is_first_argmin (argmin_from bi b (length pre) a)
                  (foldl np_minimum b a) (pre ++ a).
Proof.
  revert pre bi b. induction a as [|x a IH]; intros pre bi b Ha Hbi Hle Hfirst.
  - simpl. rewrite app_nil_r. repeat split; try done.
    apply list_elem_of_lookup. eauto.
  - apply Forall_cons in Ha as [Hx Ha].
    assert (s_isnan b = false) as Hb.
    { eapply (cmp_le_number b b), Hle, list_elem_of_lookup. eauto. }
    simpl. rewrite Hb. unfold np_minimum at 2. rewrite Hb, orb_false_r.
    replace (pre ++ x :: a) with ((pre ++ [x]) ++ a) by by rewrite <-app_assoc.
    replace (S (length pre)) with (length (pre ++ [x])) by (rewrite length_app; simpl; lia).
    destruct (s_le b x) eqn:Hbx.
    + apply IH; [done| | |].
      * rewrite lookup_app_l; [done|]. by eapply lookup_lt_Some.
      * intros y [Hy|Hy%list_elem_of_singleton]%elem_of_app; [by apply Hle|by subst y].
      * intros j y Hj Hy. apply lookup_lt_Some in Hbi.
        rewrite lookup_app_l in Hy by lia. eauto.
    + pose proof (cmp_lt_of_not_le b x Hb Hx Hbx) as Hlt.
      apply IH; [done| | |].
      * by apply list_lookup_middle.
      * intros y [Hy|Hy%list_elem_of_singleton]%elem_of_app;
          [|subst y; by apply cmp_le_refl].
        apply cmp_lt_le. eapply cmp_lt_le_trans; eauto.
      * intros j y Hj Hy. rewrite lookup_app_l in Hy by lia.
        eapply cmp_lt_le_trans; [done|]. apply Hle, list_elem_of_lookup. eauto.
Qed.

(** Without NaN: the first index of the least entry, and that entry. *)
Lemma np_argmin_first (a : list F) :
  a ≠ [] → no_nan a = true →
  ∃ i m, np_argmin a = Ok i ∧ np_min a = Ok m ∧ is_first_argmin i m a.
Proof.
  destruct a as [|x a]; [done|]. intros _ [Hx Ha]%no_nan_spec%Forall_cons.
  eexists _, _. split_and!; try done.
  apply (argmin_from_first a [x] 0 x); [done|done| |intros; lia].
  intros y Hy%list_elem_of_singleton. subst y. by apply cmp_le_refl.
Qed.

Lemma argmin_from_nan (a1 a2 : list F) m bi b i :
  s_isnan b = false → Forall (λ x, s_isnan x = false) a1 → s_isnan m = true →
  argmin_from bi b i (a1 ++ m :: a2) = i + length a1 ∧
  foldl np_minimum b (a1 ++ m :: a2) = m.
Proof.
  revert bi b i. induction a1 as [|x a1 IH]; intros bi b i Hb Ha1 Hm; simpl.
  - rewrite Hb. unfold np_minimum at 2. rewrite Hb, orb_false_r.
    destruct (s_le b m) eqn:Hbm.
    { apply cmp_le_number in Hbm as [_ Hm']. congruence. }
    split; [|by apply foldl_minimum_nan].
    destruct a2 as [|y a2]; simpl; [lia|]. rewrite Hm. lia.
  - apply Forall_cons in Ha1 as [Hx Ha1].
    rewrite Hb. unfold np_minimum at 2. rewrite Hb, orb_false_r.
    destruct (s_le b x).
    + destruct (IH bi b (S i)) as [-> ->]; try done. split; [lia|done].
    + destruct (IH i x (S i)) as [-> ->]; try done. split; [lia|done].
Qed.

(** With a NaN: the index of the first NaN, and NaN. *)
Lemma np_argmin_nan (a : list F) i m :
  is_first_nan i m a → np_argmin a = Ok i ∧ np_min a = Ok m.
Proof.
  intros (Hi & Hm & Hbefore). destruct a as [|x a]; [done|].
  destruct i as [|i]; simpl in Hi.
  - injection Hi as ->. simpl. split; f_equal.
    + destruct a as [|y a]; simpl; [done|]. by rewrite Hm.
    + by apply foldl_minimum_nan.
  - assert (s_isnan x = false) as Hx by (apply (Hbefore 0); [lia|done]).
    apply list_elem_of_split_length in Hi as (a1 & a2 & -> & ->).
    destruct (argmin_from_nan a1 a2 m 0 x 1) as [Hidx Hmin]; try done.
    { apply Forall_forall. intros y [j Hj]%list_elem_of_lookup.
      apply (Hbefore (S j)).
      - apply lookup_lt_Some in Hj. lia.
      - simpl. rewrite lookup_app_l; [done|]. by eapply lookup_lt_Some. }
    simpl. by rewrite Hidx, Hmin.
Qed.

Lemma update_gbest_first (s : Swarm F) :
  swarm_wf s = true → pbest_cost s ≠ [] → no_nan (pbest_cost s) = true →
  ∃ i bp bc,
    update_gbest s = Ok (bp, bc) ∧
    is_first_argmin i bc (pbest_cost s) ∧ pbest_pos s !! i = Some bp.
Proof.
  intros (_ & _ & Hpp & _ & Hpc & _)%swarm_wf_elim Hne Hnan.
  destruct (np_argmin_first _ Hne Hnan) as (i & m & Hi & Hm & Hfirst).
  assert (i < n_particles s) as Hlt.
  { rewrite <-Hpc. eapply lookup_lt_Some, Hfirst. }
  destruct (has_shape_lookup _ _ _ i Hpp Hlt) as (bp & Hbp & _).
  exists i, bp, m. split_and!; try done.
  unfold update_gbest, index. rewrite Hi, Hm. simpl. by rewrite Hbp.
Qed.

Lemma update_gbest_nan (s : Swarm F) i m :
  swarm_wf s = true → is_first_nan i m (pbest_cost s) →
  ∃ bp, update_gbest s = Ok (bp, m) ∧ pbest_pos s !! i = Some bp.
Proof.
  intros (_ & _ & Hpp & _ & Hpc & _)%swarm_wf_elim Hnan.
  pose proof Hnan as (Him & _).
  destruct (np_argmin_nan _ _ _ Hnan) as [Hi Hm].
  destruct (has_shape_lookup _ _ _ i Hpp) as (bp & Hbp & _).
  { rewrite <-Hpc. by eapply lookup_lt_Some. }
  exists bp. split; [|done].
  unfold update_gbest, index. rewrite Hi, Hm. simpl. by rewrite Hbp.
Qed.
End argmin_facts.

Section argmin_order.
Context {F : Type} `{OrderLaws F}.

Lemma no_nan_order (a : list F) : no_nan a = true.
Proof.
  apply no_nan_spec, Forall_forall. intros x _. unfold s_isnan.
  by rewrite le_refl.
Qed.

Lemma update_gbest_min (s : Swarm F) :
  swarm_wf s = true → pbest_cost s ≠ [] →
  ∃ i bp bc,
    update_gbest s = Ok (bp, bc) ∧
    is_first_argmin i bc (pbest_cost s) ∧ pbest_pos s !! i = Some bp.
Proof. intros Hwf Hne. apply update_gbest_first; try done. apply no_nan_order. Qed.
End argmin_order.

(** ** Cells and shapes of the matrix operations *)

Section matrix_facts.
Context {F : Type} `{Scalar F}.

Lemma cell_mat_zip {A B C} (f : A → B → C) a b i j x y :
  cell a i j = Some x → cell b i j = Some y →
  cell (mat_zip f a b) i j = Some (f x y).
Proof.
  unfold cell, mat_zip. intros Ha Hb. rewrite lookup_zip_with.
  destruct (a !! i) as [ra|]; [|done]. destruct (b !! i) as [rb|]; [|done].
  simpl in *. by rewrite lookup_zip_with, Ha, Hb.
Qed.

Lemma cell_mat_map {A B} (f : A → B) a i j x :
  cell a i j = Some x → cell (mat_map f a) i j = Some (f x).
Proof.
  unfold cell, mat_map. intros Ha. rewrite list_lookup_fmap.
  destruct (a !! i) as [ra|]; [|done]. simpl in *.
  by rewrite list_lookup_fmap, Ha.
Qed.

Lemma cell_row_zip {A B C} (f : A → B → C) v m i j x y :
  v !! j = Some x → cell m i j = Some y →
  cell (row_zip f v m) i j = Some (f x y).
Proof.
  unfold cell, row_zip. intros Hv Hm. rewrite list_lookup_fmap.
  destruct (m !! i) as [rm|]; [|done]. simpl in *.
  by rewrite lookup_zip_with, Hv, Hm.
Qed.

Lemma cell_np_where2 {A} cond (a b : list (list A)) i j c x y :
  cell cond i j = Some c → cell a i j = Some x → cell b i j = Some y →
  cell (np_where2 cond a b) i j = Some (if c then x else y).
Proof.
  unfold cell. intros Hc Ha Hb. rewrite np_where2_lookup.
  destruct (cond !! i) as [rc|]; [|done]. destruct (a !! i) as [ra|]; [|done].
  destruct (b !! i) as [rb|]; [|done]. simpl in *.
  by rewrite np_where_lookup, Hc, Ha, Hb.
Qed.

Lemma cell_np_not2 m i j c :
  cell m i j = Some c → cell (np_not2 m) i j = Some (negb c).
Proof.
  unfold cell, np_not2, np_not. intros Hm. rewrite list_lookup_fmap.
  destruct (m !! i) as [rm|]; [|done]. simpl in *.
  by rewrite list_lookup_fmap, Hm.
Qed.

Lemma has_shape_cell {A} n d (m : list (list A)) i j :
  has_shape n d m = true → i < n → j < d → ∃ x, cell m i j = Some x.
Proof.
  intros Hm Hi Hj. destruct (has_shape_lookup n d m i Hm Hi) as (row & Hrow & Hd).
  destruct (lookup_lt_is_Some_2 row j) as [x Hx]; [lia|].
  exists x. unfold cell. by rewrite Hrow.
Qed.

Lemma np_where_length {A} n cond (x y : list A) :
  length cond = n → length x = n → length y = n →
  length (np_where cond x y) = n.
Proof.
  revert cond x y. induction n as [|n IH]; intros [|c cond] [|a x] [|b y];
    simpl; try done.
  intros [=] [=] [=]. f_equal. by apply IH.
Qed.

Lemma has_shape_mat_zip {A B C} (f : A → B → C) n d a b :
  has_shape n d a = true → has_shape n d b = true →
  has_shape n d (mat_zip f a b) = true.
Proof.
  rewrite !has_shape_spec. intros [Han Had] [Hbn Hbd]. unfold mat_zip. split.
  - rewrite length_zip_with. lia.
  - intros i row (ra & rb & -> & Hra & Hrb)%lookup_zip_with_Some.
    rewrite length_zip_with, (Had _ _ Hra), (Hbd _ _ Hrb). lia.
Qed.

Lemma has_shape_mat_map {A B} (f : A → B) n d a :
  has_shape n d a = true → has_shape n d (mat_map f a) = true.
Proof.
  rewrite !has_shape_spec. intros [Han Had]. unfold mat_map. split.
  - by rewrite length_fmap.
  - intros i row (ra & -> & Hra)%list_lookup_fmap_Some.
    rewrite length_fmap. eauto.
Qed.

Lemma has_shape_row_zip {A B C} (f : A → B → C) n d v m :
  length v = d → has_shape n d m = true →
  has_shape n d (row_zip f v m) = true.
Proof.
  rewrite !has_shape_spec. intros Hv [Hmn Hmd]. unfold row_zip. split.
  - by rewrite length_fmap.
  - intros i row (rm & -> & Hrm)%list_lookup_fmap_Some.
    rewrite length_zip_with, (Hmd _ _ Hrm). lia.
Qed.

Lemma has_shape_np_not2 n d m :
  has_shape n d m = true → has_shape n d (np_not2 m) = true.
Proof.
  rewrite !has_shape_spec. intros [Hmn Hmd]. unfold np_not2, np_not. split.
  - by rewrite length_fmap.
  - intros i row (rm & -> & Hrm)%list_lookup_fmap_Some.
    rewrite length_fmap. eauto.
Qed.

Lemma has_shape_repeat_cols n d mask :
  length mask = n → has_shape n d (repeat_cols mask d) = true.
Proof.
  rewrite has_shape_spec. intros Hn. unfold repeat_cols. split.
  - by rewrite length_fmap.
  - intros i row (b & -> & Hb)%list_lookup_fmap_Some. apply length_replicate.
Qed.

Lemma has_shape_np_where2 {A} n d cond (a b : list (list A)) :
  has_shape n d cond = true → has_shape n d a = true → has_shape n d b = true →
  has_shape n d (np_where2 cond a b) = true.
Proof.
  rewrite !has_shape_spec. intros [Hcn Hcd] [Han Had] [Hbn Hbd]. split.
  - clear Hcd Had Hbd. revert cond a b Hcn Han Hbn.
    induction n as [|n IH]; intros [|c cond] [|x a] [|y b]; simpl; try done.
    intros [=] [=] [=]. f_equal. by apply IH.
  - intros i row Hrow. rewrite np_where2_lookup in Hrow.
    destruct (cond !! i) as [rc|] eqn:Hrc; [|done].
    destruct (a !! i) as [ra|] eqn:Hra; [|done].
    destruct (b !! i) as [rb|] eqn:Hrb; [|done]. simpl in Hrow.
    injection Hrow as <-. apply np_where_length; eauto.
Qed.
End matrix_facts.

(** ** [update_velocity] *)

Section update_velocity_theorems.
Context {F : Type} `{Scalar F}.

Lemma temp_velocity_shape (s : Swarm F) c1 c2 w (r1 r2 : list (list F)) :
  swarm_wf s = true →
  has_shape (n_particles s) (dimensions s) r1 = true →
  has_shape (n_particles s) (dimensions s) r2 = true →
  has_shape (n_particles s) (dimensions s) (temp_velocity s c1 c2 w r1 r2) = true.
Proof.
  intros (Hpos & Hvel & Hpp & Hbp & _)%swarm_wf_elim Hr1 Hr2. unfold temp_velocity.
  repeat first [ apply has_shape_mat_zip | apply has_shape_mat_map
               | apply has_shape_row_zip | done ].
Qed.

Lemma temp_velocity_cell (s : Swarm F) c1 c2 w (r1 r2 : list (list F)) i j v x pb bp a b :
  cell (velocity s) i j = Some v → cell (position s) i j = Some x →
  cell (pbest_pos s) i j = Some pb → best_pos s !! j = Some bp →
  cell r1 i j = Some a → cell r2 i j = Some b →
  cell (temp_velocity s c1 c2 w r1 r2) i j =
    Some (w * v + c1 * a * (pb - x) + c2 * b * (bp - x))%S.
Proof.
  intros Hv Hx Hpb Hbp Ha Hb. unfold temp_velocity.
  repeat first [ apply cell_mat_zip | apply cell_mat_map
               | apply cell_row_zip | done ].
Qed.

(** The inputs of the velocity formula at a cell of a well-shaped swarm. *)
Lemma velocity_inputs (s : Swarm F) (r1 r2 : list (list F)) i j :
  swarm_wf s = true →
  has_shape (n_particles s) (dimensions s) r1 = true →
  has_shape (n_particles s) (dimensions s) r2 = true →
  i < n_particles s → j < dimensions s →
  ∃ v x pb bp a b,
    cell (velocity s) i j = Some v ∧ cell (position s) i j = Some x ∧
    cell (pbest_pos s) i j = Some pb ∧ best_pos s !! j = Some bp ∧
    cell r1 i j = Some a ∧ cell r2 i j = Some b.
Proof.
  intros (Hpos & Hvel & Hpp & Hbp & _)%swarm_wf_elim Hr1 Hr2 Hi Hj.
  destruct (has_shape_cell _ _ _ i j Hvel Hi Hj) as [v Hv].
  destruct (has_shape_cell _ _ _ i j Hpos Hi Hj) as [x Hx].
  destruct (has_shape_cell _ _ _ i j Hpp Hi Hj) as [pb Hpb].
  destruct (lookup_lt_is_Some_2 (best_pos s) j) as [bp Hbp']; [lia|].
  destruct (has_shape_cell _ _ _ i j Hr1 Hi Hj) as [a Ha].
  destruct (has_shape_cell _ _ _ i j Hr2 Hi Hj) as [b Hb].
  by exists v, x, pb, bp, a, b.
Qed.

(** C7.  Without a clamp, and with the two random draws [r1] and [r2] given,
    [update_velocity] returns a matrix of the shape of the swarm whose cell
    at every (particle, dimension) is exactly
    [w*velocity + c1*r1*(pbest_pos - position) + c2*r2*(best_pos - position)],
    the entry of [best_pos] depending on the dimension only. *)
Theorem update_velocity_unclamped (s : Swarm F) (r1 r2 : list (list F)) (c1 c2 w : F) :
  swarm_wf s = true →
  has_shape (n_particles s) (dimensions s) r1 = true →
  has_shape (n_particles s) (dimensions s) r2 = true →
  behavior s !! "c1" = Some c1 → behavior s !! "c2" = Some c2 →
  behavior s !! "w" = Some w →
  ∃ out,
    update_velocity s None r1 r2 = Ok out ∧
    has_shape (n_particles s) (dimensions s) out = true ∧
    ∀ i j, i < n_particles s → j < dimensions s →
      ∃ v x pb bp a b,
        cell (velocity s) i j = Some v ∧ cell (position s) i j = Some x ∧
        cell (pbest_pos s) i j = Some pb ∧ best_pos s !! j = Some bp ∧
        cell r1 i j = Some a ∧ cell r2 i j = Some b ∧
        cell out i j = Some (w * v + c1 * a * (pb - x) + c2 * b * (bp - x))%S.
Proof.
  intros Hwf Hr1 Hr2 Hc1 Hc2 Hw. exists (temp_velocity s c1 c2 w r1 r2).
  split_and!.
  - unfold update_velocity. by rewrite Hc1, Hc2, Hw.
  - by apply temp_velocity_shape.
  - intros i j Hi Hj.
    destruct (velocity_inputs s r1 r2 i j) as (v & x & pb & bp & a & b & Hin);
      try done.
    exists v, x, pb, bp, a, b. destruct Hin as (Hv & Hx & Hpb & Hbp & Ha & Hb).
    split_and!; try done. by apply temp_velocity_cell.
Qed.

(** C3.  With a clamp [(min_v, max_v)], every cell of the result of
    [update_velocity] is the proposed value
    [w*velocity + c1*r1*(pbest_pos - position) + c2*r2*(best_pos - position)]
    when that lies within [[min_v, max_v]], and the old velocity of the cell
    otherwise: a proposal out of range is rejected, never cut to the
    boundary. *)
Theorem update_velocity_clamped (s : Swarm F) (min_v max_v : F)
    (r1 r2 : list (list F)) (c1 c2 w : F) :
  swarm_wf s = true →
  has_shape (n_particles s) (dimensions s) r1 = true →
  has_shape (n_particles s) (dimensions s) r2 = true →
  behavior s !! "c1" = Some c1 → behavior s !! "c2" = Some c2 →
  behavior s !! "w" = Some w →
  ∃ out,
    update_velocity s (Some (min_v, max_v)) r1 r2 = Ok out ∧
    has_shape (n_particles s) (dimensions s) out = true ∧
    ∀ i j, i < n_particles s → j < dimensions s →
      ∃ v x pb bp a b,
        cell (velocity s) i j = Some v ∧ cell (position s) i j = Some x ∧
        cell (pbest_pos s) i j = Some pb ∧ best_pos s !! j = Some bp ∧
        cell r1 i j = Some a ∧ cell r2 i j = Some b ∧
        let t := (w * v + c1 * a * (pb - x) + c2 * b * (bp - x))%S in
        cell out i j =
          Some (if (min_v <=? t)%S && (t <=? max_v)%S then t else v).
Proof.
  intros Hwf Hr1 Hr2 Hc1 Hc2 Hw.
  pose proof (temp_velocity_shape s c1 c2 w r1 r2 Hwf Hr1 Hr2) as Hshape.
  unfold update_velocity. rewrite Hc1, Hc2, Hw. simpl.
  eexists. split_and!; [done| |].
  - apply has_shape_np_where2; [|by apply swarm_wf_elim in Hwf as (_ & ? & _)|done].
    apply has_shape_np_not2, has_shape_mat_zip; by apply has_shape_mat_map.
  - intros i j Hi Hj.
    destruct (velocity_inputs s r1 r2 i j) as (v & x & pb & bp & a & b & Hin);
      try done.
    exists v, x, pb, bp, a, b. destruct Hin as (Hv & Hx & Hpb & Hbp & Ha & Hb).
    split_and!; try done. cbv zeta.
    set (t := (w * v + c1 * a * (pb - x) + c2 * b * (bp - x))%S).
    pose proof (temp_velocity_cell s c1 c2 w r1 r2 i j _ _ _ _ _ _
                  Hv Hx Hpb Hbp Ha Hb) as Ht. fold t in Ht.
    rewrite (cell_np_where2 _ _ _ i j (negb ((min_v <=? t)%S && (t <=? max_v)%S)) v t);
      try done.
    + by destruct ((min_v <=? t)%S && (t <=? max_v)%S).
    + apply cell_np_not2.
      apply (cell_mat_zip andb);
        [by apply (cell_mat_map (λ y, s_le min_v y))
        |by apply (cell_mat_map (λ y, s_le y max_v))].
Qed.
End update_velocity_theorems.

(** ** [update_position] *)

Section update_position_theorems.
Context {F : Type} `{Scalar F}.

Lemma all_zip_with_true {A B} (f : A → B → bool) (a : list A) (b : list B) :
  forallb id (zip_with f a b) = true ↔
  ∀ j x y, a !! j = Some x → b !! j = Some y → f x y = true.
Proof.
  rewrite forallb_forall. split.
  - intros Hall j x y Hx Hy. apply (Hall (f x y)).
    apply list_elem_of_In, list_elem_of_lookup. exists j.
    apply lookup_zip_with_Some. eauto.
  - intros Hall c [j Hj]%list_elem_of_In%list_elem_of_lookup.
    apply lookup_zip_with_Some in Hj as (x & y & -> & Hx & Hy). simpl. eauto.
Qed.

Lemma all_zip_with_false {A B} (f : A → B → bool) (a : list A) (b : list B) j x y :
  a !! j = Some x → b !! j = Some y → f x y = false →
  forallb id (zip_with f a b) = false.
Proof.
  intros Hx Hy Hf. apply not_true_is_false. rewrite all_zip_with_true.
  intros Hall. specialize (Hall j x y Hx Hy). congruence.
Qed.

(** The row of [update_position] at particle [i]. *)
Lemma update_position_row (s : Swarm F) (lb ub : list F) i x v :
  swarm_wf s = true → i < n_particles s →
  position s !! i = Some x → velocity s !! i = Some v →
  let t := zip_with s_add x v in
  update_position s (Some (lb, ub)) !! i =
    Some (if forallb id (zip_with s_le lb t) && forallb id (zip_with s_le t ub)
          then t else x).
Proof.
  intros (Hpos & Hvel & _)%swarm_wf_elim Hi Hx Hv t.
  apply has_shape_spec in Hpos as [Hpn Hpd]. apply has_shape_spec in Hvel as [Hvn Hvd].
  unfold update_position, np_not2, np_not, repeat_cols, np_all_rows, mat_zip.
  rewrite np_where2_lookup, !list_lookup_fmap, !lookup_zip_with, !list_lookup_fmap,
    !lookup_zip_with, Hx, Hv, !lookup_replicate_2 by done.
  simpl. fold t. rewrite fmap_replicate, np_where_replicate.
  - by destruct (forallb id (zip_with s_le lb t) && forallb id (zip_with s_le t ub)).
  - eauto.
  - unfold t. rewrite length_zip_with, (Hpd _ _ Hx), (Hvd _ _ Hv). lia.
Qed.

(** C4.  With bounds [(lb, ub)] of length [dimensions], [update_position]
    accepts or rejects each particle as a whole: when every dimension of
    [temp_position[i] = position[i] + velocity[i]] lies within its bounds the
    row of the result is [temp_position[i]]; when some dimension lies outside
    the whole row is the old [position[i]], the dimensions that were within
    their bounds included. *)
Theorem update_position_bounded (s : Swarm F) (lb ub : list F) :
  swarm_wf s = true →
  length lb = dimensions s → length ub = dimensions s →
  has_shape (n_particles s) (dimensions s) (update_position s (Some (lb, ub))) = true ∧
  ∀ i, i < n_particles s →
    ∃ x v,
      position s !! i = Some x ∧ velocity s !! i = Some v ∧
      let t := zip_with s_add x v in
      ((∀ j l u tj, lb !! j = Some l → ub !! j = Some u → t !! j = Some tj →
          (l <=? tj)%S = true ∧ (tj <=? u)%S = true) →
       update_position s (Some (lb, ub)) !! i = Some t) ∧
      (∀ j l u tj, lb !! j = Some l → ub !! j = Some u → t !! j = Some tj →
          (l <=? tj)%S && (tj <=? u)%S = false →
          update_position s (Some (lb, ub)) !! i = Some x).
Proof.
  intros Hwf Hlb Hub.
  pose proof Hwf as (Hpos & Hvel & _)%swarm_wf_elim.
  assert (Hrows : ∀ i, i < n_particles s →
    ∃ x v, position s !! i = Some x ∧ velocity s !! i = Some v ∧
           length x = dimensions s ∧ length v = dimensions s).
  { intros i Hi.
    destruct (has_shape_lookup _ _ _ i Hpos Hi) as (x & Hx & Hxd).
    destruct (has_shape_lookup _ _ _ i Hvel Hi) as (v & Hv & Hvd).
    by exists x, v. }
  split.
  - unfold update_position.
    assert (has_shape (n_particles s) (dimensions s)
              (mat_zip s_add (position s) (velocity s)) = true) as Htemp
      by by apply has_shape_mat_zip.
    apply has_shape_np_where2; [|done..].
    apply has_shape_np_not2, has_shape_repeat_cols.
    apply has_shape_spec in Htemp as [Htn _].
    unfold np_all_rows, mat_zip in *.
    rewrite length_zip_with, !length_fmap, !length_zip_with, !length_replicate in *.
    lia.
  - intros i Hi. destruct (Hrows i Hi) as (x & v & Hx & Hv & Hxd & Hvd).
    exists x, v. split_and!; try done. cbv zeta.
    set (t := zip_with s_add x v).
    assert (length t = dimensions s) as Ht.
    { unfold t. rewrite length_zip_with. lia. }
    rewrite (update_position_row s lb ub i x v) by done. fold t. split.
    + intros Hall.
      assert (forallb id (zip_with s_le lb t) = true) as ->.
      { apply all_zip_with_true. intros j l tj Hl Htj.
        destruct (lookup_lt_is_Some_2 ub j) as [u Hu].
        { apply lookup_lt_Some in Hl. lia. }
        by apply (Hall j l u tj). }
      assert (forallb id (zip_with s_le t ub) = true) as ->; [|done].
      apply all_zip_with_true. intros j tj u Htj Hu.
      destruct (lookup_lt_is_Some_2 lb j) as [l Hl].
      { apply lookup_lt_Some in Hu. lia. }
      by apply (Hall j l u tj).
    + intros j l u tj Hl Hu Htj [Hlo|Hhi]%andb_false_iff.
      * by rewrite (all_zip_with_false s_le lb t j l tj).
      * rewrite (all_zip_with_false s_le t ub j tj u) by done.
        by rewrite andb_false_r.
Qed.
End update_position_theorems.

(** ** Index arrays *)

Section mapM_facts.
Context {A B : Type} (f : A → result B).

Lemma mapM_Ok (l : list A) (ys : list B) :
  mapM f l = Ok ys ↔ Forall2 (λ x y, f x = Ok y) l ys.
Proof.
  revert ys. induction l as [|x l IH]; intros ys; simpl.
  - split; [intros [= <-]; constructor|by intros ->%Forall2_nil_inv_l].
  - unfold mbind, result_bind, mret, result_ret.
    destruct (f x) as [y|e] eqn:Hfx.
    + destruct (mapM f l) as [k|e] eqn:Hk.
      * split.
        -- intros [= <-]. constructor; [done|by apply IH].
        -- intros (y' & k' & Hy' & Hk' & ->)%Forall2_cons_inv_l.
           apply IH in Hk'. congruence.
      * split; [done|].
        intros (y' & k' & Hy' & Hk' & ->)%Forall2_cons_inv_l.
        apply IH in Hk'. congruence.
    + split; [done|].
      intros (y' & k' & Hy' & Hk' & ->)%Forall2_cons_inv_l. congruence.
Qed.

Lemma mapM_is_Ok (l : list A) :
  Forall (λ x, ∃ y, f x = Ok y) l → ∃ ys, mapM f l = Ok ys.
Proof.
  induction 1 as [|x l [y Hy] _ [ys IH]]; [by exists []|].
  exists (y :: ys). apply mapM_Ok. constructor; [done|by apply mapM_Ok].
Qed.

(** The first failure is the one that is raised. *)
Lemma mapM_Raise (l1 l2 : list A) x e :
  Forall (λ x, ∃ y, f x = Ok y) l1 → f x = Raise e →
  mapM f (l1 ++ x :: l2) = Raise e.
Proof.
  induction 1 as [|x' l [y Hy] _ IH]; intros Hx; simpl.
  - unfold mbind, result_bind. by rewrite Hx.
  - unfold mbind, result_bind in *. by rewrite Hy, IH.
Qed.
End mapM_facts.

Section take_idx_facts.
Context {A : Type}.

Lemma take_idx_Ok (a : list A) (idx : list nat) (xs : list A) :
  take_idx a idx = Ok xs ↔ Forall2 (λ i x, a !! i = Some x) idx xs.
Proof.
  unfold take_idx. rewrite mapM_Ok.
  split; intros Hall; (eapply Forall2_impl; [exact Hall|]); intros i x;
    unfold index; destruct (a !! i); simpl; congruence.
Qed.

Lemma take_idx_is_Ok (a : list A) (idx : list nat) :
  Forall (λ i, i < length a) idx → ∃ xs, take_idx a idx = Ok xs.
Proof.
  intros Hidx. apply mapM_is_Ok. eapply Forall_impl; [done|].
  intros i [x Hx]%lookup_lt_is_Some_2. exists x. unfold index. by rewrite Hx.
Qed.
End take_idx_facts.

(** ** Index arrays *)

Section index_array_facts.

Lemma index_array_spec n k (idx : list (list nat)) :
  index_array n k idx = true ↔
  length idx = n ∧ Forall (λ row, length row = k ∧ Forall (λ j, j < n) row) idx.
Proof.
  unfold index_array. rewrite andb_true_iff, has_shape_spec, forallb_forall,
    Forall_forall. split.
  - intros [[Hn Hk] Hin]. split; [done|]. intros row Hrow. split.
    + apply list_elem_of_lookup in Hrow as [i Hi]. eauto.
    + apply Forall_forall. intros j Hj.
      specialize (Hin row (proj1 (list_elem_of_In _ _) Hrow)).
      rewrite forallb_forall in Hin.
      eapply bool_decide_eq_true_1, Hin. by apply list_elem_of_In.
  - intros [Hn Hrows]. split; [split; [done|]|].
    + intros i row Hi. apply list_elem_of_lookup_2 in Hi. by apply Hrows.
    + intros row Hrow%list_elem_of_In. apply forallb_forall.
      intros j Hj%list_elem_of_In. apply bool_decide_eq_true_2.
      destruct (Hrows row Hrow) as [_ Hall].
      by apply (proj1 (Forall_forall _ _) Hall).
Qed.

Lemma includes_self_spec (idx : list (list nat)) :
  includes_self idx = true ↔ ∀ i row, idx !! i = Some row → i ∈ row.
Proof.
  unfold includes_self. rewrite forallb_forall. split.
  - intros Hall i row Hi.
    assert (bool_decide (i ∈ row) = true) as Hdec; [|by apply bool_decide_eq_true_1 in Hdec].
    apply (Hall (bool_decide (i ∈ row))).
    apply list_elem_of_In, list_elem_of_lookup. exists i.
    by rewrite list_lookup_imap, Hi.
  - intros Hall b [i Hi]%list_elem_of_In%list_elem_of_lookup.
    rewrite list_lookup_imap in Hi.
    destruct (idx !! i) as [row|] eqn:Hrow; [|done]. injection Hi as <-.
    simpl. apply bool_decide_eq_true_2. eauto.
Qed.

Lemma includes_all_spec n (idx : list (list nat)) :
  includes_all n idx = true ↔ ∀ row j, row ∈ idx → j < n → j ∈ row.
Proof.
  unfold includes_all. rewrite forallb_forall. split.
  - intros Hall row j Hrow%list_elem_of_In Hj.
    specialize (Hall row Hrow). rewrite forallb_forall in Hall.
    assert (bool_decide (j ∈ row) = true) as Hdec; [|by apply bool_decide_eq_true_1 in Hdec].
    apply (Hall j), list_elem_of_In, elem_of_seq. lia.
  - intros Hall row Hrow%list_elem_of_In. apply forallb_forall.
    intros j Hj%list_elem_of_In%elem_of_seq. apply bool_decide_eq_true_2.
    apply Hall; [done|lia].
Qed.

(** When every particle is a neighbour of every particle, every particle is
    its own neighbour. *)
Lemma includes_all_self n k (idx : list (list nat)) :
  index_array n k idx = true → includes_all n idx = true →
  includes_self idx = true.
Proof.
  intros [Hn _]%index_array_spec Hall. apply includes_self_spec.
  intros i row Hi. apply (proj1 (includes_all_spec n idx) Hall).
  - by eapply list_elem_of_lookup_2.
  - rewrite <-Hn. by eapply lookup_lt_Some.
Qed.
End index_array_facts.

(** ** The errors of the modelled query *)

Lemma cKDTree_query_ValueError (data x : list (list float)) (p k : Z) :
  (p < 1)%Z ∨ (k < 1)%Z → cKDTree_query data x p k = Raise ValueError.
Proof.
  intros Hpk. unfold cKDTree_query.
  destruct (all_finite data); simpl; [|done].
  destruct (Z.ltb_spec p 1); [done|].
  destruct (all_finite x); simpl; [|done].
  by destruct (Z.ltb_spec k 1); [|lia].
Qed.

(** ** The best neighbour of every particle *)

Section best_neighbor_facts.
Context {F : Type} `{Scalar F}.

Lemma row_pass_Ok (costs : list F) (row : list nat) :
  row ≠ [] → Forall (λ j, j < length costs) row →
  ∃ b, row_pass costs row b ∧ b ∈ row.
Proof.
  intros Hne Hrow. destruct (take_idx_is_Ok costs row Hrow) as [crow Hcrow].
  pose proof Hcrow as Hlen%take_idx_Ok%Forall2_length.
  destruct (np_argmin_Ok crow) as (j & Hj & Hjlt).
  { intros ->. by destruct row. }
  destruct (lookup_lt_is_Some_2 row j) as [b Hb]; [lia|].
  exists b. split; [|apply list_elem_of_lookup; eauto].
  exists crow, j. split_and!; try done. unfold index. by rewrite Hb.
Qed.

Lemma three_pass (costs : list F) (idx : list (list nat)) (bn : list nat) :
  Forall2 (row_pass costs) idx bn →
  (cost_rows ← mapM (take_idx costs) idx;
   idx_min ← argmin_axis1 cost_rows;
   pick idx idx_min) = Ok bn.
Proof.
  intros Hall.
  assert (∃ cost_rows idx_min,
    Forall2 (λ row crow, take_idx costs row = Ok crow) idx cost_rows ∧
    Forall2 (λ crow j, np_argmin crow = Ok j) cost_rows idx_min ∧
    Forall2 (λ (rc : list nat * nat) b, index rc.1 rc.2 = Ok b)
            (zip idx idx_min) bn) as (cost_rows & idx_min & H1 & H2 & H3).
  { induction Hall as [|row b idx bn (crow & j & Hc & Hj & Hb) _
                         (cost_rows & idx_min & H1 & H2 & H3)].
    - exists [], []. split_and!; constructor.
    - exists (crow :: cost_rows), (j :: idx_min). split_and!; by constructor. }
  apply mapM_Ok in H1, H2, H3. unfold argmin_axis1, pick.
  rewrite H1. simpl. rewrite H2. simpl. done.
Qed.

Lemma best_neighbors_rows (s : Swarm F) (k : Z) (idx : list (list nat)) :
  k ≠ 1%Z →
  Forall (λ row, row ≠ [] ∧ Forall (λ j, j < length (pbest_cost s)) row) idx →
  ∃ bn, best_neighbors s k idx = Ok bn ∧
        Forall2 (λ row b, row_pass (pbest_cost s) row b ∧ b ∈ row) idx bn.
Proof.
  intros Hk Hidx.
  assert (∃ bn, Forall2 (λ row b, row_pass (pbest_cost s) row b ∧ b ∈ row) idx bn)
    as [bn Hbn].
  { induction Hidx as [|row idx [Hne Hrow] _ [bn IH]]; [by exists []|].
    destruct (row_pass_Ok _ _ Hne Hrow) as (b & Hb & Hin).
    exists (b :: bn). by constructor. }
  exists bn. split; [|done]. unfold best_neighbors.
  destruct (Z.eqb_spec k 1); [done|]. apply three_pass.
  eapply Forall2_impl; [done|]. by intros row b [? _].
Qed.

(** For [k = 1] every entry of [best_neighbor] is 0, the argmin of a row of
    one entry. *)
Lemma best_neighbors_one (s : Swarm F) (idx : list (list nat)) :
  Forall (λ j, j < length (pbest_cost s)) (concat idx) →
  best_neighbors s 1 idx = Ok (replicate (length (concat idx)) 0).
Proof.
  intros [costs Hcosts]%take_idx_is_Ok. unfold best_neighbors. simpl.
  rewrite Hcosts. simpl. apply take_idx_Ok, Forall2_length in Hcosts.
  rewrite Hcosts. unfold argmin_axis1. apply mapM_Ok.
  clear Hcosts. induction costs as [|c costs IH]; simpl; by constructor.
Qed.

Lemma concat_singletons (P : nat → Prop) (idx : list (list nat)) :
  Forall (λ row, length row = 1 ∧ Forall P row) idx →
  length (concat idx) = length idx ∧ Forall P (concat idx).
Proof.
  induction 1 as [|row idx [Hlen Hrow] _ [IHlen IHall]]; simpl; [done|].
  rewrite length_app, Forall_app. split; [lia|done].
Qed.

Lemma take_idx_replicate {A} (a : list A) n c :
  a !! 0 = Some c → take_idx a (replicate n 0) = Ok (replicate n c).
Proof.
  intros Hc. apply take_idx_Ok. induction n as [|n IH]; simpl; by constructor.
Qed.

Lemma np_minimum_diag (c : F) : np_minimum c c = c.
Proof. unfold np_minimum. by destruct (s_le c c || s_isnan c). Qed.

Lemma np_min_replicate n (c : F) : np_min (replicate (S n) c) = Ok c.
Proof.
  simpl. f_equal. induction n as [|n IH]; simpl; [done|].
  by rewrite np_minimum_diag.
Qed.

Lemma np_argmin_replicate n (c : F) : np_argmin (replicate (S n) c) = Ok 0.
Proof.
  simpl. f_equal. generalize 1.
  induction n as [|n IH]; intros i; simpl; [done|].
  unfold s_isnan. destruct (s_le c c) eqn:Hc; simpl; [|done].
  apply IH.
Qed.
End best_neighbor_facts.

Section best_neighbor_order.
Context {F : Type} `{CompareLaws F}.

Lemma take_idx_no_nan (costs crow : list F) (row : list nat) :
  no_nan costs = true → take_idx costs row = Ok crow → no_nan crow = true.
Proof.
  intros Hnan%no_nan_spec Hcrow%take_idx_Ok. apply no_nan_spec, Forall_forall.
  intros c [t Ht]%list_elem_of_lookup.
  destruct (Forall2_lookup_r _ _ _ _ _ Hcrow Ht) as (i & _ & Hi).
  apply (proj1 (Forall_forall _ _) Hnan). by eapply list_elem_of_lookup_2.
Qed.

Lemma row_pass_best (costs : list F) (row : list nat) (b : nat) :
  no_nan costs = true → row ≠ [] → row_pass costs row b → row_best costs row b.
Proof.
  intros Hnan Hne (crow & j & Hcrow & Hj & Hb).
  pose proof (take_idx_no_nan _ _ _ Hnan Hcrow) as Hcnan.
  apply take_idx_Ok in Hcrow.
  destruct (np_argmin_first crow) as (j' & m & Hj' & _ & Hjm & [_ Hmin] & _);
    [|done|].
  { intros ->. apply Forall2_nil_inv_r in Hcrow. done. }
  assert (j' = j) as -> by congruence.
  unfold index in Hb. destruct (row !! j) as [b'|] eqn:Hrj; [|done].
  injection Hb as ->.
  destruct (Forall2_lookup_l _ _ _ _ _ Hcrow Hrj) as (m' & Hm' & Hbm).
  assert (m' = m) as -> by congruence.
  split; [apply list_elem_of_lookup; eauto|].
  exists m. split; [done|]. intros t c' [u Hu]%list_elem_of_lookup Hc'.
  destruct (Forall2_lookup_l _ _ _ _ _ Hcrow Hu) as (c'' & Hc'' & Htc).
  assert (c'' = c') as -> by congruence.
  apply Hmin, list_elem_of_lookup. eauto.
Qed.

Lemma Forall2_row_best (costs : list F) (idx : list (list nat)) (bn : list nat) :
  no_nan costs = true → Forall (λ row, row ≠ []) idx →
  Forall2 (λ row b, row_pass costs row b ∧ b ∈ row) idx bn →
  Forall2 (row_best costs) idx bn.
Proof.
  intros Hnan Hne Hall. revert Hne.
  induction Hall as [|row b idx bn [Hrow _] _ IH]; intros Hne; [constructor|].
  apply Forall_cons in Hne as [Hrne Hne]. constructor; [|by apply IH].
  by apply row_pass_best.
Qed.
End best_neighbor_order.

(** ** [update_gbest_neighborhood] *)

Section neighborhood_facts.
Context {F : Type} `{Scalar F} `{AsFloat64 F}.
Variable query :
  list (list float) → list (list float) → Z → Z → result (list (list nat)).

Lemma gbest_neighborhood_steps (s : Swarm F) p k idx bn cs bc i bp :
  query (float64 (position s)) (float64 (position s)) p k = Ok idx →
  best_neighbors s k idx = Ok bn →
  take_idx (pbest_cost s) bn = Ok cs →
  np_min cs = Ok bc → np_argmin cs = Ok i → pbest_pos s !! i = Some bp →
  update_gbest_neighborhood_with query s p k = Ok (bp, bc).
Proof.
  intros Hidx Hbn Hcs Hbc Hi Hbp. unfold update_gbest_neighborhood_with, index.
  rewrite Hidx. simpl. rewrite Hbn. simpl. rewrite Hcs. simpl.
  rewrite Hbc. simpl. rewrite Hi. simpl. by rewrite Hbp.
Qed.

(** The last steps, from [best_neighbor] on. *)
Lemma gbest_of_neighbors (s : Swarm F) (bn : list nat) :
  swarm_wf s = true → bn ≠ [] → length bn = n_particles s →
  Forall (λ b, b < length (pbest_cost s)) bn →
  ∃ cs bc i bp,
    take_idx (pbest_cost s) bn = Ok cs ∧ np_min cs = Ok bc ∧
    np_argmin cs = Ok i ∧ pbest_pos s !! i = Some bp.
Proof.
  intros (_ & _ & Hpp & _)%swarm_wf_elim Hne Hlen Hbn.
  destruct (take_idx_is_Ok _ _ Hbn) as [cs Hcs].
  pose proof Hcs as Hcslen%take_idx_Ok%Forall2_length.
  assert (cs ≠ []) as Hcsne. { intros ->. by destruct bn. }
  destruct (np_min_Ok cs Hcsne) as [bc Hbc].
  destruct (np_argmin_Ok cs Hcsne) as (i & Hi & Hilt).
  destruct (has_shape_lookup _ _ _ i Hpp) as (bp & Hbp & _); [lia|].
  by exists cs, bc, i, bp.
Qed.

(** The general path, [k ≠ 1], on an index array without missing
    neighbours. *)
Lemma gbest_neighborhood_general (s : Swarm F) (p k : Z) idx :
  swarm_wf s = true → (1 < k)%Z → 0 < n_particles s →
  query (float64 (position s)) (float64 (position s)) p k = Ok idx →
  index_array (n_particles s) (Z.to_nat k) idx = true →
  ∃ bn cs bc i bp,
    best_neighbors s k idx = Ok bn ∧
    Forall2 (λ row b, row_pass (pbest_cost s) row b ∧ b ∈ row) idx bn ∧
    Forall (λ row, row ≠ []) idx ∧
    take_idx (pbest_cost s) bn = Ok cs ∧ length cs = n_particles s ∧
    np_min cs = Ok bc ∧ np_argmin cs = Ok i ∧ pbest_pos s !! i = Some bp ∧
    update_gbest_neighborhood_with query s p k = Ok (bp, bc).
Proof.
  intros Hwf Hk Hn Hidx [Hlen Hrows]%index_array_spec.
  pose proof Hwf as (_ & _ & _ & _ & Hpc & _)%swarm_wf_elim.
  assert (Forall (λ row, row ≠ []) idx) as Hne.
  { eapply Forall_impl; [exact Hrows|]. intros row [Hr _] ->. simpl in Hr. lia. }
  destruct (best_neighbors_rows s k idx) as (bn & Hbn & Hall); [lia| |].
  { apply Forall_forall. intros row Hrow. split.
    - by apply (proj1 (Forall_forall _ _) Hne).
    - rewrite Hpc. by apply (proj1 (Forall_forall _ _) Hrows). }
  pose proof (Forall2_length _ _ _ Hall) as Hbnlen.
  destruct (gbest_of_neighbors s bn) as (cs & bc & i & bp & Hcs & Hbc & Hi & Hbp);
    try done.
  { intros ->. simpl in Hbnlen. lia. }
  { lia. }
  { apply Forall_forall. intros b [t Ht]%list_elem_of_lookup.
    destruct (Forall2_lookup_r _ _ _ _ _ Hall Ht) as (row & Hrow & _ & Hin).
    apply list_elem_of_lookup_2 in Hrow.
    apply (proj1 (Forall_forall _ _) Hrows) in Hrow as [_ Hrow].
    rewrite Hpc. by apply (proj1 (Forall_forall _ _) Hrow). }
  exists bn, cs, bc, i, bp. split_and!; try done.
  - apply take_idx_Ok, Forall2_length in Hcs. lia.
  - by eapply gbest_neighborhood_steps.
Qed.

(** For [k = 1] the operator works on [best_neighbor = [0, ..., 0]]: the
    result is the personal best of particle 0, whatever the other particles
    hold and whichever neighbour the query has found for each. *)
Lemma gbest_neighborhood_first_particle (s : Swarm F) (p : Z) idx bp0 bc0 :
  swarm_wf s = true →
  query (float64 (position s)) (float64 (position s)) p 1 = Ok idx →
  index_array (n_particles s) 1 idx = true →
  pbest_pos s !! 0 = Some bp0 → pbest_cost s !! 0 = Some bc0 →
  best_neighbors s 1 idx = Ok (replicate (n_particles s) 0) ∧
  update_gbest_neighborhood_with query s p 1 = Ok (bp0, bc0).
Proof.
  intros Hwf Hidx [Hlen Hrows]%index_array_spec Hbp0 Hbc0.
  pose proof Hwf as (_ & _ & _ & _ & Hpc & _)%swarm_wf_elim.
  assert (0 < n_particles s) as Hn.
  { rewrite <-Hpc. by eapply lookup_lt_Some. }
  destruct (concat_singletons _ _ Hrows) as [Hclen Hcall].
  rewrite <-Hpc in Hcall.
  pose proof (best_neighbors_one s idx Hcall) as Hbn.
  rewrite Hclen, Hlen in Hbn. split; [done|].
  destruct (n_particles s) as [|n] eqn:Hnp; [lia|].
  eapply gbest_neighborhood_steps; try done.
  - by apply take_idx_replicate.
  - apply np_min_replicate.
  - apply np_argmin_replicate.
Qed.
End neighborhood_facts.

Section neighborhood_errors.
Context {F : Type} `{Scalar F} `{AsFloat64 F}.

End neighborhood_errors.

Section neighborhood_theorems.
Context {F : Type} `{CompareLaws F} `{AsFloat64 F}.
Variable query :
  list (list float) → list (list float) → Z → Z → result (list (list nat)).

(** The general path: what [best_neighbor], the costs
    [cs = pbest_cost[best_neighbor]] and the result are, and what they mean
    where no cost is NaN. *)
Lemma gbest_neighborhood_argmin (s : Swarm F) (p k : Z) idx :
  swarm_wf s = true → (1 < k)%Z → 0 < n_particles s →
  query (float64 (position s)) (float64 (position s)) p k = Ok idx →
  index_array (n_particles s) (Z.to_nat k) idx = true →
  ∃ best_neighbor cs i best_pos best_cost,
    best_neighbors s k idx = Ok best_neighbor ∧
    Forall2 (λ row b, b ∈ row) idx best_neighbor ∧
    Forall2 (λ b c, pbest_cost s !! b = Some c) best_neighbor cs ∧
    length cs = n_particles s ∧
    np_min cs = Ok best_cost ∧ np_argmin cs = Ok i ∧
    pbest_pos s !! i = Some best_pos ∧
    update_gbest_neighborhood_with query s p k = Ok (best_pos, best_cost) ∧
    (no_nan (pbest_cost s) = true →
       Forall2 (row_best (pbest_cost s)) idx best_neighbor ∧
       is_first_argmin i best_cost cs).
Proof.
  intros Hwf Hk Hn Hidx Harr.
  destruct (gbest_neighborhood_general query s p k idx Hwf Hk Hn Hidx Harr)
    as (bn & cs & bc & i & bp & Hbn & Hall & Hne & Hcs & Hlen
        & Hbc & Hi & Hbp & Hres).
  exists bn, cs, i, bp, bc. split_and!; try done.
  - eapply Forall2_impl; [exact Hall|]. by intros row b [_ ?].
  - by apply take_idx_Ok.
  - intros Hnan. split; [by apply Forall2_row_best|].
    destruct (np_argmin_first cs) as (i' & m & Hi' & Hm & Hfirst).
    { intros ->. simpl in Hlen. lia. }
    { by eapply take_idx_no_nan. }
    congruence.
Qed.

(** When every particle is among its own neighbours, the least cost among
    the best neighbours is a least personal-best cost of the swarm. *)
Lemma gbest_neighborhood_min (s : Swarm F) (p k : Z) idx :
  swarm_wf s = true → (1 < k)%Z → 0 < n_particles s →
  no_nan (pbest_cost s) = true →
  query (float64 (position s)) (float64 (position s)) p k = Ok idx →
  index_array (n_particles s) (Z.to_nat k) idx = true →
  includes_self idx = true →
  ∃ best_neighbor cs i best_pos best_cost,
    Forall2 (row_best (pbest_cost s)) idx best_neighbor ∧
    Forall2 (λ b c, pbest_cost s !! b = Some c) best_neighbor cs ∧
    update_gbest_neighborhood_with query s p k = Ok (best_pos, best_cost) ∧
    is_first_argmin i best_cost cs ∧
    pbest_pos s !! i = Some best_pos ∧
    is_min_of best_cost (pbest_cost s).
Proof.
  intros Hwf Hk Hn Hnan Hidx Harr Hself.
  destruct (gbest_neighborhood_argmin s p k idx Hwf Hk Hn Hidx Harr)
    as (bn & cs & i & bp & bc & _ & _ & Hcs & Hlen & _ & _ & Hbp & Hres & Hmean).
  destruct (Hmean Hnan) as [Hbest Hfirst].
  exists bn, cs, i, bp, bc. split_and!; try done.
  destruct Hfirst as (Hi & [Hbcin Hbcmin] & _).
  pose proof Hwf as (_ & _ & _ & _ & Hpc & _)%swarm_wf_elim.
  apply index_array_spec in Harr as [Hidxlen _].
  split.
  - apply list_elem_of_lookup in Hbcin as [t Ht].
    destruct (Forall2_lookup_r _ _ _ _ _ Hcs Ht) as (b & _ & Hb).
    apply list_elem_of_lookup. eauto.
  - intros y [g Hg]%list_elem_of_lookup.
    pose proof (lookup_lt_Some _ _ _ Hg) as Hglt.
    destruct (lookup_lt_is_Some_2 idx g) as [row Hrow]; [lia|].
    destruct (Forall2_lookup_l _ _ _ _ _ Hbest Hrow) as (b & Hb & _ & c & Hc & Hcmin).
    destruct (Forall2_lookup_l _ _ _ _ _ Hcs Hb) as (c' & Hc' & Hbc').
    assert (c' = c) as -> by congruence.
    eapply cmp_le_trans; [apply Hbcmin, list_elem_of_lookup; eauto|].
    apply (Hcmin g); [|done].
    by apply (proj1 (includes_self_spec idx) Hself).
Qed.
End neighborhood_theorems.

Section neighborhood_global.
Context {F : Type} `{CompareLaws F} `{AsFloat64 F}.

(** C9, as the code has it.  For [1 < k < n_particles] and personal-best
    costs without NaN, whenever the index array the query returns has every
    particle among its own [k] neighbours (and no neighbour missing), the
    cost [update_gbest_neighborhood] returns is a least entry of
    [pbest_cost], as the cost [update_gbest] returns is: neither is above
    the other.  Distinct positions do not give that by themselves: in
    binary64 the distance between two of them can round to 0. *)
Theorem neighborhood_cost_is_global_min
    (query : list (list float) → list (list float) → Z → Z
             → result (list (list nat)))
    (s : Swarm F) (p k : Z) (idx : list (list nat)) :
  swarm_wf s = true → (1 < k < Z.of_nat (n_particles s))%Z →
  no_nan (pbest_cost s) = true →
  query (float64 (position s)) (float64 (position s)) p k = Ok idx →
  index_array (n_particles s) (Z.to_nat k) idx = true →
  includes_self idx = true →
  ∃ best_pos gbest_pos c c',
    update_gbest_neighborhood_with query s p k = Ok (best_pos, c) ∧
    update_gbest s = Ok (gbest_pos, c') ∧
    is_min_of c (pbest_cost s) ∧ is_min_of c' (pbest_cost s) ∧
    s_le c c' = true ∧ s_le c' c = true.
Proof.
  intros Hwf Hk Hnan Hidx Harr Hself.
  pose proof Hwf as (_ & _ & _ & _ & Hpc & _)%swarm_wf_elim.
  destruct (gbest_neighborhood_min query s p k idx)
    as (bn & cs & i & bp & bc & _ & _ & Hres & _ & _ & Hmin); try done; [lia..|].
  destruct (update_gbest_first s Hwf) as (g & gp & gc & Hg & (_ & Hgmin & _) & _);
    [|done|].
  { intros Hnil. rewrite Hnil in Hpc. simpl in Hpc. lia. }
  exists bp, gp, bc, gc. split_and!; try done.
  - apply Hmin, Hgmin.
  - apply Hgmin, Hmin.
Qed.
End neighborhood_global.

(** * The operators on the example swarms *)

Example update_pbest_run :
  update_pbest three_particles
    = ([[0.0]; [1.5]; [9.0]]%float, [4.0; 1.0; 7.0]%float).
Proof. reflexivity. Qed.

Example update_gbest_run :
  update_gbest three_particles = Ok ([1.5]%float, 1.0%float).
Proof. reflexivity. Qed.

Example update_velocity_run :
  update_velocity two_particles None draw1 draw2
    = Ok [[0.1875]; [0.0625]]%float.
Proof. by vm_compute. Qed.

Example update_velocity_clamp_run :
  update_velocity two_particles (Some (-0.125, 0.125)%float) draw1 draw2
    = Ok [[0.25]; [0.0625]]%float.
Proof. by vm_compute. Qed.

Example update_velocity_missing_key :
  update_velocity three_particles None [[0.5]; [0.5]; [0.5]]%float
                  [[0.5]; [0.5]; [0.5]]%float = Raise KeyError.
Proof. by vm_compute. Qed.

Example update_position_run :
  update_position three_particles None = [[1.0]; [0.0]; [12.0]]%float.
Proof. reflexivity. Qed.

Example update_position_bounds_run :
  update_position three_particles (Some ([0.0], [10.0])%float)
    = [[1.0]; [0.0]; [10.0]]%float.
Proof. reflexivity. Qed.

Example update_gbest_neighborhood_too_many :
  update_gbest_neighborhood three_particles 2 4 = Raise IndexError.
Proof. by vm_compute. Qed.

(** [3 ^ 1000] overflows: neither particle has a second neighbour. *)
Example update_gbest_neighborhood_overflow :
  update_gbest_neighborhood two_particles 1000 2 = Raise IndexError.
Proof. by vm_compute. Qed.

Example update_gbest_nan_run :
  update_gbest nan_pbest_particles = Ok ([5.0]%float, PrimFloat.nan).
Proof. reflexivity. Qed.

(** C2.  On a swarm of consistent shapes whose [pbest_cost] is not empty,
    over binary64 floats as over integers: where [pbest_cost] holds no NaN,
    [update_gbest] returns as [best_cost] the minimum of [pbest_cost] and as
    [best_pos] the row of [pbest_pos] at the first index where [pbest_cost]
    takes that minimum; where it holds a NaN, numpy's minimum is NaN, and
    [update_gbest] returns the first NaN of [pbest_cost] with the row of
    [pbest_pos] at its index.  For two particles in one dimension with
    [pbest_pos = [[0.0], [5.0]]] and [pbest_cost = [2.0, 1.0]] it returns
    [best_pos = [5.0]] and [best_cost = 1.0]. *)
Theorem update_gbest_spec :
  (∀ (F : Type) (SF : Scalar F), CompareLaws F → ∀ s : Swarm F,
     swarm_wf s = true → pbest_cost s ≠ [] →
     (no_nan (pbest_cost s) = true →
        ∃ i best_pos best_cost,
          update_gbest s = Ok (best_pos, best_cost) ∧
          is_first_argmin i best_cost (pbest_cost s) ∧
          pbest_pos s !! i = Some best_pos) ∧
     (∀ i m, is_first_nan i m (pbest_cost s) →
        ∃ best_pos,
          update_gbest s = Ok (best_pos, m) ∧ pbest_pos s !! i = Some best_pos)) ∧
  update_gbest two_particles = Ok ([5.0]%float, 1.0%float).
Proof.
  split; [|reflexivity]. intros F SF CL s Hwf Hne. split.
  - intros Hnan. by apply update_gbest_first.
  - intros i m Hnan. by apply update_gbest_nan.
Qed.


(** C6.  With [k = 1] the query gives every particle itself as its one
    neighbour, and yet [best_neighbor] is 0 for every particle: on two
    particles with personal-best costs 2.0 and 1.0 the operator returns the
    personal best of particle 0, position [[0.0]] and cost 2.0, for the whole
    swarm, and the personal best of particle 1 plays no part. *)
Theorem update_gbest_neighborhood_k1_first_particle :
  cKDTree_query (position two_particles) (position two_particles) 2 1
    = Ok [[0]; [1]] ∧
  best_neighbors two_particles 1 [[0]; [1]] = Ok [0; 0] ∧
  update_gbest_neighborhood two_particles 2 1 = Ok ([0.0]%float, 2.0%float) ∧
  pbest_pos two_particles !! 1 = Some [5.0]%float ∧
  pbest_cost two_particles !! 1 = Some 1.0%float.
Proof. by vm_compute. Qed.


(** C9 fails as stated.  The three particles of [close_particles] are at
    pairwise distinct positions, and with [k = 2] the neighbours of every one
    of them are particles 0 and 1, all three being at distance 0 of each
    other after rounding: the operator returns the cost 5.0, and
    [update_gbest] the cost 1.0 of particle 2.  The three particles of
    [far_particles] are at pairwise distinct positions too, so far apart
    that each has no neighbour but itself: the operator raises IndexError
    and returns no cost. *)
Lemma neighborhood_cost_not_global_min :
  (swarm_wf close_particles = true ∧ NoDup (position close_particles) ∧
   (1 < 2 < Z.of_nat (n_particles close_particles))%Z ∧
   update_gbest_neighborhood close_particles 2 2 = Ok ([0.0]%float, 5.0%float) ∧
   update_gbest close_particles = Ok ([0x1p-599]%float, 1.0%float)) ∧
  (swarm_wf far_particles = true ∧ NoDup (position far_particles) ∧
   (1 < 2 < Z.of_nat (n_particles far_particles))%Z ∧
   update_gbest_neighborhood far_particles 2 2 = Raise IndexError ∧
   update_gbest far_particles = Ok ([-0x1p+700]%float, 1.0%float)).
Proof.
  assert (∀ x y : float,
            PrimFloat.ltb x y = true ∨ PrimFloat.ltb y x = true → [x] ≠ [y])
    as Hne.
  { intros x y Hlt [= ->]. rewrite float_lt_irrefl in Hlt. by destruct Hlt. }
  split; (split; [reflexivity|]); (split; [|split; [simpl; lia|by vm_compute]]).
  all: simpl; rewrite !NoDup_cons, !not_elem_of_cons.
  all: split_and!; try apply not_elem_of_nil; try apply NoDup_nil.
  all: first [exact I | apply Hne; vm_compute; tauto].
Qed.

(** ** The theorems at the example swarms *)

Lemma update_pbest_spec_witness :
  swarm_wf three_particles = true ∧
  (has_shape (n_particles three_particles) (dimensions three_particles)
     (update_pbest three_particles).1 = true ∧
   length (update_pbest three_particles).2 = n_particles three_particles ∧
   ∀ i, i < n_particles three_particles →
     ∃ cur pb x pp,
       current_cost three_particles !! i = Some cur ∧
       pbest_cost three_particles !! i = Some pb ∧
       position three_particles !! i = Some x ∧
       pbest_pos three_particles !! i = Some pp ∧
       (s_isnan cur = false → s_isnan pb = false →
          ∃ m, (update_pbest three_particles).2 !! i = Some m ∧
               is_min_of m [pb; cur]) ∧
       (s_lt cur pb = true →
          (update_pbest three_particles).1 !! i = Some x ∧
          (update_pbest three_particles).2 !! i = Some cur) ∧
       (s_lt cur pb = false →
          (update_pbest three_particles).1 !! i = Some pp ∧
          (update_pbest three_particles).2 !! i = Some pb) ∧
       (x ≠ pp →
          ((update_pbest three_particles).1 !! i = Some x ↔ s_lt cur pb = true))).
Proof.
  split; [reflexivity|]. apply (update_pbest_spec three_particles). reflexivity.
Defined.

Lemma update_gbest_spec_witness :
  swarm_wf two_particles = true ∧ pbest_cost two_particles ≠ [] ∧
  (no_nan (pbest_cost two_particles) = true →
     ∃ i best_pos best_cost,
       update_gbest two_particles = Ok (best_pos, best_cost) ∧
       is_first_argmin i best_cost (pbest_cost two_particles) ∧
       pbest_pos two_particles !! i = Some best_pos) ∧
  (∀ i m, is_first_nan i m (pbest_cost two_particles) →
     ∃ best_pos,
       update_gbest two_particles = Ok (best_pos, m) ∧
       pbest_pos two_particles !! i = Some best_pos).
Proof.
  split; [reflexivity|]. split; [discriminate|].
  apply (proj1 update_gbest_spec float float_scalar float_compare_laws
           two_particles); [reflexivity|discriminate].
Defined.

Lemma update_velocity_clamped_witness :
  swarm_wf two_particles = true ∧
  has_shape (n_particles two_particles) (dimensions two_particles) draw1 = true ∧
  has_shape (n_particles two_particles) (dimensions two_particles) draw2 = true ∧
  behavior two_particles !! "c1" = Some 0.5%float ∧
  behavior two_particles !! "c2" = Some 0.25%float ∧
  behavior two_particles !! "w" = Some 0.75%float ∧
  ∃ out,
    update_velocity two_particles (Some (-0.125, 0.125)%float) draw1 draw2 = Ok out ∧
    has_shape (n_particles two_particles) (dimensions two_particles) out = true ∧
    ∀ i j, i < n_particles two_particles → j < dimensions two_particles →
      ∃ v x pb bp a b,
        cell (velocity two_particles) i j = Some v ∧
        cell (position two_particles) i j = Some x ∧
        cell (pbest_pos two_particles) i j = Some pb ∧
        best_pos two_particles !! j = Some bp ∧
        cell draw1 i j = Some a ∧ cell draw2 i j = Some b ∧
        let t := (0.75%float * v + 0.5%float * a * (pb - x)
                  + 0.25%float * b * (bp - x))%S in
        cell out i j =
          Some (if ((-0.125)%float <=? t)%S && (t <=? 0.125%float)%S then t else v).
Proof.
  do 6 (split; [reflexivity|]).
  apply (update_velocity_clamped two_particles); reflexivity.
Defined.

Lemma update_position_bounded_witness :
  swarm_wf three_particles = true ∧
  length [0.0%float] = dimensions three_particles ∧
  length [10.0%float] = dimensions three_particles ∧
  (has_shape (n_particles three_particles) (dimensions three_particles)
     (update_position three_particles (Some ([0.0], [10.0])%float)) = true ∧
   ∀ i, i < n_particles three_particles →
     ∃ x v,
       position three_particles !! i = Some x ∧
       velocity three_particles !! i = Some v ∧
       let t := zip_with s_add x v in
       ((∀ j l u tj, [0.0%float] !! j = Some l → [10.0%float] !! j = Some u →
           t !! j = Some tj → (l <=? tj)%S = true ∧ (tj <=? u)%S = true) →
        update_position three_particles (Some ([0.0], [10.0])%float) !! i = Some t) ∧
       (∀ j l u tj, [0.0%float] !! j = Some l → [10.0%float] !! j = Some u →
           t !! j = Some tj → (l <=? tj)%S && (tj <=? u)%S = false →
           update_position three_particles (Some ([0.0], [10.0])%float) !! i
             = Some x)).
Proof.
  do 3 (split; [reflexivity|]).
  apply (update_position_bounded three_particles); reflexivity.
Defined.

Lemma update_velocity_unclamped_witness :
  swarm_wf two_particles = true ∧
  has_shape (n_particles two_particles) (dimensions two_particles) draw1 = true ∧
  has_shape (n_particles two_particles) (dimensions two_particles) draw2 = true ∧
  behavior two_particles !! "c1" = Some 0.5%float ∧
  behavior two_particles !! "c2" = Some 0.25%float ∧
  behavior two_particles !! "w" = Some 0.75%float ∧
  ∃ out,
    update_velocity two_particles None draw1 draw2 = Ok out ∧
    has_shape (n_particles two_particles) (dimensions two_particles) out = true ∧
    ∀ i j, i < n_particles two_particles → j < dimensions two_particles →
      ∃ v x pb bp a b,
        cell (velocity two_particles) i j = Some v ∧
        cell (position two_particles) i j = Some x ∧
        cell (pbest_pos two_particles) i j = Some pb ∧
        best_pos two_particles !! j = Some bp ∧
        cell draw1 i j = Some a ∧ cell draw2 i j = Some b ∧
        cell out i j =
          Some (0.75%float * v + 0.5%float * a * (pb - x)
                + 0.25%float * b * (bp - x))%S.
Proof.
  do 6 (split; [reflexivity|]).
  apply (update_velocity_unclamped two_particles); reflexivity.
Defined.

Lemma update_pbest_idempotent_witness :
  (∀ x : float, s_lt x x = false) ∧
  update_pbest (with_pbest three_particles (update_pbest three_particles))
    = update_pbest three_particles.
Proof.
  split; [exact float_lt_irrefl|].
  apply (update_pbest_idempotent three_particles), float_lt_irrefl.
Defined.

Lemma neighborhood_cost_is_global_min_witness :
  swarm_wf three_particles = true ∧
  (1 < 2 < Z.of_nat (n_particles three_particles))%Z ∧
  no_nan (pbest_cost three_particles) = true ∧
  cKDTree_query (float64 (position three_particles))
                (float64 (position three_particles)) 2 2
    = Ok [[0; 1]; [1; 0]; [2; 1]] ∧
  index_array (n_particles three_particles) (Z.to_nat 2)
              [[0; 1]; [1; 0]; [2; 1]] = true ∧
  includes_self [[0; 1]; [1; 0]; [2; 1]] = true ∧
  ∃ best_pos gbest_pos c c',
    update_gbest_neighborhood_with cKDTree_query three_particles 2 2
      = Ok (best_pos, c) ∧
    update_gbest three_particles = Ok (gbest_pos, c') ∧
    is_min_of c (pbest_cost three_particles) ∧
    is_min_of c' (pbest_cost three_particles) ∧
    s_le c c' = true ∧ s_le c' c = true.
Proof.
  split; [reflexivity|]. split; [simpl; lia|]. split; [reflexivity|].
  split; [by vm_compute|]. split; [reflexivity|]. split; [reflexivity|].
  apply (neighborhood_cost_is_global_min cKDTree_query three_particles 2%Z 2%Z
           [[0; 1]; [1; 0]; [2; 1]]);
    [reflexivity|simpl; lia|reflexivity|by vm_compute|reflexivity|reflexivity].
Defined.



(** * Further properties of the operators *)

(** ** Comparisons of binary64 floats with NaN *)

Lemma float_is_nan_spec (x : float) :
  PrimFloat.is_nan x = true ↔ Prim2SF x = S754_nan.
Proof.
  unfold PrimFloat.is_nan. rewrite FloatAxioms.eqb_spec. unfold SFeqb, SFcompare.
  destruct (Prim2SF x) as [s|s| |s m e]; simpl.
  - split; done.
  - destruct s; split; done.
  - split; done.
  - destruct s; rewrite Z.compare_refl, Pos.compare_cont_refl; split; done.
Qed.

Lemma float_lt_nan (x y : float) :
  PrimFloat.is_nan x = true ∨ PrimFloat.is_nan y = true →
  PrimFloat.ltb x y = false.
Proof.
  rewrite !float_is_nan_spec, ltb_spec. unfold SFltb, SFcompare.
  intros [-> | ->]; [done|]. by destruct (Prim2SF x).
Qed.

Lemma float_le_not_nan (x y : float) :
  PrimFloat.leb x y = true →
  PrimFloat.is_nan x = false ∧ PrimFloat.is_nan y = false.
Proof.
  rewrite leb_spec. unfold SFleb, SFcompare. intros Hle.
  split; apply not_true_is_false; rewrite float_is_nan_spec; intros Hnan;
    rewrite Hnan in Hle; [done|]. by destruct (Prim2SF x).
Qed.

(** ** Personal bests over an iteration *)

Section pbest_then_gbest.
Context {F : Type} `{Scalar F}.

(** The result of [update_pbest], written back, leaves the swarm in shape. *)
Lemma update_pbest_wf (s : Swarm F) :
  swarm_wf s = true → swarm_wf (with_pbest s (update_pbest s)) = true.
Proof.
  intros Hwf. pose proof Hwf as (Hpos & Hvel & Hpp & Hbp & Hpc & Hcc)%swarm_wf_elim.
  assert (length (zip_with s_lt (current_cost s) (pbest_cost s)) = n_particles s)
    as Hmask by (rewrite length_zip_with; lia).
  unfold swarm_wf, with_pbest, update_pbest. simpl.
  rewrite Hpos, Hvel. simpl. rewrite !andb_true_iff, !bool_decide_eq_true.
  split_and!; try done.
  - apply has_shape_np_where2; try done.
    by apply has_shape_np_not2, has_shape_repeat_cols.
  - apply np_where_length; try done. unfold np_not. by rewrite length_fmap.
Qed.
End pbest_then_gbest.

Section pbest_then_gbest_order.
Context {F : Type} `{OrderLaws F}.

(** X1.  [update_pbest] followed by [update_gbest]: once the personal bests
    are written back, the cost [update_gbest] returns is the least of all
    entries of the old [pbest_cost] and of [current_cost] together, so it is
    never above the cost [update_gbest] returned before the update. *)
Theorem gbest_after_pbest (s : Swarm F) :
  swarm_wf s = true → pbest_cost s ≠ [] →
  ∃ best_pos best_cost,
    update_gbest (with_pbest s (update_pbest s)) = Ok (best_pos, best_cost) ∧
    is_min_of best_cost (pbest_cost s ++ current_cost s) ∧
    ∀ old_pos old_cost,
      update_gbest s = Ok (old_pos, old_cost) → s_le best_cost old_cost = true.
Proof.
  intros Hwf Hne.
  pose proof Hwf as (_ & _ & _ & _ & Hpc & Hcc)%swarm_wf_elim.
  destruct (update_gbest_min (with_pbest s (update_pbest s)))
    as (i & bp & bc & Hres & (Hi & [_ Hmin] & _) & _).
  { by apply update_pbest_wf. }
  { cbn [with_pbest pbest_cost]. intros Hnil. apply (f_equal length) in Hnil.
    pose proof (update_pbest_wf s Hwf) as (_ & _ & _ & _ & Hlen & _)%swarm_wf_elim.
    cbn [with_pbest pbest_cost n_particles] in Hlen. rewrite Hlen in Hnil.
    destruct (pbest_cost s); [done|simpl in *; lia]. }
  cbn [with_pbest pbest_cost] in Hi, Hmin.
  assert (Hmin_of : is_min_of bc (pbest_cost s ++ current_cost s)).
  { rewrite update_pbest_cost_lookup in Hi.
    destruct (current_cost s !! i) as [cur|] eqn:Hcur; [|done].
    destruct (pbest_cost s !! i) as [pb|] eqn:Hpb; [|done]. simpl in Hi.
    injection Hi as <-. split.
    - apply elem_of_app. destruct (s_lt cur pb);
        [right|left]; apply list_elem_of_lookup; eauto.
    - assert (Hnew : ∀ j cur' pb', current_cost s !! j = Some cur' →
                pbest_cost s !! j = Some pb' →
                s_le (if s_lt cur pb then cur else pb)
                     (if s_lt cur' pb' then cur' else pb') = true).
      { intros j cur' pb' Hc' Hp'. apply Hmin, list_elem_of_lookup. exists j.
        by rewrite update_pbest_cost_lookup, Hc', Hp'. }
      intros y [[j Hj]%list_elem_of_lookup|[j Hj]%list_elem_of_lookup]%elem_of_app.
      + destruct (lookup_lt_is_Some_2 (current_cost s) j) as [cur' Hc'].
        { apply lookup_lt_Some in Hj. lia. }
        eapply le_trans; [by apply (Hnew j cur' y)|].
        destruct (s_lt cur' y) eqn:Hlt; [by apply le_of_lt|apply le_refl].
      + destruct (lookup_lt_is_Some_2 (pbest_cost s) j) as [pb' Hp'].
        { apply lookup_lt_Some in Hj. lia. }
        eapply le_trans; [by apply (Hnew j y pb')|].
        destruct (s_lt y pb') eqn:Hlt; [apply le_refl|by apply le_of_not_lt]. }
  exists bp, bc. split_and!; try done.
  intros gp gc Hg. destruct (update_gbest_min s Hwf Hne)
    as (g & gp' & gc' & Hg' & (Hgc & _) & _).
  assert (gc' = gc) as -> by congruence.
  apply Hmin_of, elem_of_app. left. apply list_elem_of_lookup. eauto.
Qed.
End pbest_then_gbest_order.

(** X2.  On binary64 floats a NaN cost never wins and never yields: where
    [current_cost[i]] or [pbest_cost[i]] is NaN, [update_pbest] keeps the
    old [pbest_cost[i]] and the old [pbest_pos[i]].  A personal best whose
    cost is NaN is therefore never replaced. *)
Theorem update_pbest_nan (s : Swarm float) (i : nat) (cur pb : float) :
  swarm_wf s = true →
  current_cost s !! i = Some cur → pbest_cost s !! i = Some pb →
  PrimFloat.is_nan cur = true ∨ PrimFloat.is_nan pb = true →
  (update_pbest s).2 !! i = Some pb ∧
  (update_pbest s).1 !! i = pbest_pos s !! i.
Proof.
  intros (Hpos & _ & Hpp & _ & Hpc & _)%swarm_wf_elim Hcur Hpb Hnan.
  assert (i < n_particles s) as Hi.
  { rewrite <-Hpc. by eapply lookup_lt_Some. }
  destruct (has_shape_lookup _ _ _ i Hpos Hi) as (x & Hx & Hxd).
  destruct (has_shape_lookup _ _ _ i Hpp Hi) as (pp & Hp & Hpd).
  rewrite update_pbest_cost_lookup, update_pbest_pos_lookup, Hcur, Hpb, Hx, Hp.
  simpl. rewrite (float_lt_nan cur pb Hnan). simpl.
  by rewrite np_where_replicate.
Qed.

(** ** Velocities under a clamp *)

Section clamp_facts.
Context {F : Type} `{Scalar F}.

Lemma cell_Some_lt {A} n d (m : list (list A)) i j x :
  has_shape n d m = true → cell m i j = Some x → i < n ∧ j < d.
Proof.
  intros [Hn Hd]%has_shape_spec Hc. unfold cell in Hc.
  destruct (m !! i) as [row|] eqn:Hrow; [|done]. simpl in Hc.
  pose proof (lookup_lt_Some _ _ _ Hrow). pose proof (lookup_lt_Some _ _ _ Hc).
  rewrite (Hd _ _ Hrow) in *. lia.
Qed.

(** Two matrices of one shape with the same cells are the same matrix. *)
Lemma mat_ext {A} n d (a b : list (list A)) :
  has_shape n d a = true → has_shape n d b = true →
  (∀ i j, i < n → j < d → cell a i j = cell b i j) → a = b.
Proof.
  intros [Han Had]%has_shape_spec [Hbn Hbd]%has_shape_spec Hcells.
  apply list_eq_same_length with n; try done.
  intros i ra rb Hi Hra Hrb. apply list_eq_same_length with d; eauto.
  intros j x y Hj Hx Hy. specialize (Hcells i j Hi Hj). unfold cell in Hcells.
  rewrite Hra, Hrb in Hcells. simpl in Hcells. congruence.
Qed.

(** The clamped result, cell by cell. *)
Lemma update_velocity_clamp_cells (s : Swarm F) (min_v max_v : F)
    (r1 r2 : list (list F)) (c1 c2 w : F) :
  swarm_wf s = true →
  has_shape (n_particles s) (dimensions s) r1 = true →
  has_shape (n_particles s) (dimensions s) r2 = true →
  behavior s !! "c1" = Some c1 → behavior s !! "c2" = Some c2 →
  behavior s !! "w" = Some w →
  ∃ out,
    update_velocity s (Some (min_v, max_v)) r1 r2 = Ok out ∧
    has_shape (n_particles s) (dimensions s) out = true ∧
    ∀ i j, i < n_particles s → j < dimensions s →
      ∃ t v, cell (velocity s) i j = Some v ∧
             cell out i j = Some (if s_le min_v t && s_le t max_v then t else v).
Proof.
  intros Hwf Hr1 Hr2 Hc1 Hc2 Hw.
  pose proof (temp_velocity_shape s c1 c2 w r1 r2 Hwf Hr1 Hr2) as Hshape.
  pose proof Hwf as (_ & Hvel & _)%swarm_wf_elim.
  unfold update_velocity. rewrite Hc1, Hc2, Hw. simpl.
  eexists. split_and!; [done| |].
  - apply has_shape_np_where2; [|done..].
    apply has_shape_np_not2, has_shape_mat_zip; by apply has_shape_mat_map.
  - intros i j Hi Hj.
    destruct (has_shape_cell _ _ _ i j Hshape Hi Hj) as [t Ht].
    destruct (has_shape_cell _ _ _ i j Hvel Hi Hj) as [v Hv].
    exists t, v. split; [done|].
    rewrite (cell_np_where2 _ _ _ i j (negb (s_le min_v t && s_le t max_v)) v t);
      try done.
    + by destruct (s_le min_v t && s_le t max_v).
    + apply cell_np_not2, (cell_mat_zip andb);
        [by apply (cell_mat_map (λ y, s_le min_v y))
        |by apply (cell_mat_map (λ y, s_le y max_v))].
Qed.

(** X3.  The clamp is an invariant of the velocities: when every cell of the
    old velocity lies within [[min_v, max_v]], so does every cell of the
    velocity [update_velocity] returns, whatever the random draws. *)
Theorem update_velocity_clamp_invariant (s : Swarm F) (min_v max_v : F)
    (r1 r2 : list (list F)) (c1 c2 w : F) :
  swarm_wf s = true →
  has_shape (n_particles s) (dimensions s) r1 = true →
  has_shape (n_particles s) (dimensions s) r2 = true →
  behavior s !! "c1" = Some c1 → behavior s !! "c2" = Some c2 →
  behavior s !! "w" = Some w →
  (∀ i j v, cell (velocity s) i j = Some v →
     s_le min_v v = true ∧ s_le v max_v = true) →
  ∃ out,
    update_velocity s (Some (min_v, max_v)) r1 r2 = Ok out ∧
    ∀ i j o, cell out i j = Some o →
      s_le min_v o = true ∧ s_le o max_v = true.
Proof.
  intros Hwf Hr1 Hr2 Hc1 Hc2 Hw Hold.
  destruct (update_velocity_clamp_cells s min_v max_v r1 r2 c1 c2 w)
    as (out & Hout & Hshape & Hcells); try done.
  exists out. split; [done|]. intros i j o Ho.
  destruct (cell_Some_lt _ _ _ _ _ _ Hshape Ho) as [Hi Hj].
  destruct (Hcells i j Hi Hj) as (t & v & Hv & Hcell).
  rewrite Hcell in Ho. injection Ho as <-.
  destruct (s_le min_v t && s_le t max_v) eqn:Hin; [|by apply (Hold i j)].
  by apply andb_true_iff in Hin.
Qed.

End clamp_facts.

Section empty_clamp.
Context {F : Type} `{OrderLaws F}.

(** X5.  A clamp whose maximum is below its minimum rejects every proposal:
    [update_velocity] returns the old velocity unchanged. *)
Theorem update_velocity_empty_clamp (s : Swarm F) (min_v max_v : F)
    (r1 r2 : list (list F)) (c1 c2 w : F) :
  swarm_wf s = true →
  has_shape (n_particles s) (dimensions s) r1 = true →
  has_shape (n_particles s) (dimensions s) r2 = true →
  behavior s !! "c1" = Some c1 → behavior s !! "c2" = Some c2 →
  behavior s !! "w" = Some w →
  s_lt max_v min_v = true →
  update_velocity s (Some (min_v, max_v)) r1 r2 = Ok (velocity s).
Proof.
  intros Hwf Hr1 Hr2 Hc1 Hc2 Hw Hlt.
  destruct (update_velocity_clamp_cells s min_v max_v r1 r2 c1 c2 w)
    as (out & Hout & Hshape & Hcells); try done.
  rewrite Hout. f_equal.
  pose proof Hwf as (_ & Hvel & _)%swarm_wf_elim.
  apply (mat_ext (n_particles s) (dimensions s)); try done.
  intros i j Hi Hj. destruct (Hcells i j Hi Hj) as (t & v & Hv & Hcell).
  rewrite Hcell, Hv. f_equal.
  destruct (s_le min_v t) eqn:Hlo; [|done].
  destruct (s_le t max_v) eqn:Hhi; [|done]. simpl.
  pose proof (not_lt_of_le _ _ (le_trans _ _ _ Hlo Hhi)). congruence.
Qed.
End empty_clamp.

(** X6.  On binary64 floats the clamp keeps NaN out: when no cell of the old
    velocity is NaN, no cell of the velocity [update_velocity] returns with
    a clamp is NaN, whatever values (NaN and infinities included) the
    positions, the coefficients, the draws and the clamp itself hold. *)
Theorem update_velocity_clamp_no_nan (s : Swarm float) (min_v max_v : float)
    (r1 r2 : list (list float)) (c1 c2 w : float) :
  swarm_wf s = true →
  has_shape (n_particles s) (dimensions s) r1 = true →
  has_shape (n_particles s) (dimensions s) r2 = true →
  behavior s !! "c1" = Some c1 → behavior s !! "c2" = Some c2 →
  behavior s !! "w" = Some w →
  (∀ i j v, cell (velocity s) i j = Some v → PrimFloat.is_nan v = false) →
  ∃ out,
    update_velocity s (Some (min_v, max_v)) r1 r2 = Ok out ∧
    ∀ i j o, cell out i j = Some o → PrimFloat.is_nan o = false.
Proof.
  intros Hwf Hr1 Hr2 Hc1 Hc2 Hw Hold.
  destruct (update_velocity_clamp_cells s min_v max_v r1 r2 c1 c2 w)
    as (out & Hout & Hshape & Hcells); try done.
  exists out. split; [done|]. intros i j o Ho.
  destruct (cell_Some_lt _ _ _ _ _ _ Hshape Ho) as [Hi Hj].
  destruct (Hcells i j Hi Hj) as (t & v & Hv & Hcell).
  rewrite Hcell in Ho. injection Ho as <-.
  destruct (PrimFloat.leb min_v t && PrimFloat.leb t max_v) eqn:Hin;
    [|by apply (Hold i j)].
  apply andb_true_iff in Hin as [Hlo _].
  by apply float_le_not_nan in Hlo as [_ Hnan].
Qed.

(** ** Positions under bounds *)

Section bounds_facts.
Context {F : Type} `{Scalar F}.

Lemma within_spec (lb ub row : list F) d :
  length lb = d → length ub = d → length row = d →
  forallb id (zip_with s_le lb row) && forallb id (zip_with s_le row ub) = true ↔
  within lb ub row.
Proof.
  intros Hlb Hub Hrow. rewrite andb_true_iff, !all_zip_with_true. split.
  - intros [Hlo Hhi] j l u x Hl Hu Hx. split; eauto.
  - intros Hin. split.
    + intros j l x Hl Hx. destruct (lookup_lt_is_Some_2 ub j) as [u Hu].
      { apply lookup_lt_Some in Hl. lia. }
      by apply (Hin j l u x).
    + intros j x u Hx Hu. destruct (lookup_lt_is_Some_2 lb j) as [l Hl].
      { apply lookup_lt_Some in Hu. lia. }
      by apply (Hin j l u x).
Qed.

Lemma update_position_shape (s : Swarm F) (bounds : option (list F * list F)) :
  swarm_wf s = true →
  has_shape (n_particles s) (dimensions s) (update_position s bounds) = true.
Proof.
  intros (Hpos & Hvel & _)%swarm_wf_elim. unfold update_position.
  assert (has_shape (n_particles s) (dimensions s)
            (mat_zip s_add (position s) (velocity s)) = true) as Htemp
    by by apply has_shape_mat_zip.
  destruct bounds as [[lb ub]|]; [|done].
  apply has_shape_np_where2; [|done..].
  apply has_shape_np_not2, has_shape_repeat_cols.
  apply has_shape_spec in Htemp as [Htn _].
  unfold np_all_rows, mat_zip in *.
  rewrite length_zip_with, !length_fmap, !length_zip_with, !length_replicate in *.
  lia.
Qed.

(** The rows of the bounded result: the proposal where it is within the
    bounds, the old row elsewhere. *)
Lemma update_position_rows (s : Swarm F) (lb ub : list F) i y :
  swarm_wf s = true → length lb = dimensions s → length ub = dimensions s →
  update_position s (Some (lb, ub)) !! i = Some y →
  ∃ x v, position s !! i = Some x ∧ velocity s !! i = Some v ∧
         length x = dimensions s ∧
         ((within lb ub (zip_with s_add x v) ∧ y = zip_with s_add x v) ∨
          (¬ within lb ub (zip_with s_add x v) ∧ y = x)).
Proof.
  intros Hwf Hlb Hub Hy.
  pose proof Hwf as (Hpos & Hvel & _)%swarm_wf_elim.
  destruct (decide (i < n_particles s)) as [Hi|Hi].
  - destruct (has_shape_lookup _ _ _ i Hpos Hi) as (x & Hx & Hxd).
    destruct (has_shape_lookup _ _ _ i Hvel Hi) as (v & Hv & Hvd).
    exists x, v. split_and!; try done.
    rewrite (update_position_row s lb ub i x v) in Hy by done.
    injection Hy as <-.
    destruct (forallb id (zip_with s_le lb (zip_with s_add x v)) &&
              forallb id (zip_with s_le (zip_with s_add x v) ub)) eqn:Hmask.
    + left. split; [|done]. eapply within_spec; try done.
      rewrite length_zip_with. lia.
    + right. split; [|done]. intros Hin.
      eapply within_spec in Hin; try done; [congruence|].
      rewrite length_zip_with. lia.
  - apply lookup_lt_Some in Hy.
    pose proof (update_position_shape s (Some (lb, ub)) Hwf) as [Hn _]%has_shape_spec.
    lia.
Qed.

(** X7.  The bounds are an invariant of the positions: when every particle
    lies within [(lb, ub)] before [update_position], every particle lies
    within them afterwards. *)
Theorem update_position_stays_within (s : Swarm F) (lb ub : list F) :
  swarm_wf s = true → length lb = dimensions s → length ub = dimensions s →
  (∀ i x, position s !! i = Some x → within lb ub x) →
  ∀ i y, update_position s (Some (lb, ub)) !! i = Some y → within lb ub y.
Proof.
  intros Hwf Hlb Hub Hold i y Hy.
  destruct (update_position_rows s lb ub i y)
    as (x & v & Hx & _ & _ & [[Hin ->]|[_ ->]]); eauto.
Qed.

(** X8.  Without bounds [update_position] returns [position + velocity] cell
    by cell, in the shape of the swarm; and bounds that every proposed row
    satisfies change nothing: the bounded call returns the same matrix. *)
Theorem update_position_unbounded (s : Swarm F) :
  swarm_wf s = true →
  has_shape (n_particles s) (dimensions s) (update_position s None) = true ∧
  (∀ i j x v, cell (position s) i j = Some x → cell (velocity s) i j = Some v →
     cell (update_position s None) i j = Some (s_add x v)) ∧
  (∀ lb ub, length lb = dimensions s → length ub = dimensions s →
     (∀ i t, update_position s None !! i = Some t → within lb ub t) →
     update_position s (Some (lb, ub)) = update_position s None).
Proof.
  intros Hwf. pose proof Hwf as (Hpos & Hvel & _)%swarm_wf_elim.
  split_and!.
  - by apply has_shape_mat_zip.
  - intros i j x v Hx Hv. by apply cell_mat_zip.
  - intros lb ub Hlb Hub Hall.
    pose proof (update_position_shape s (Some (lb, ub)) Hwf) as [Hn _]%has_shape_spec.
    pose proof (update_position_shape s None Hwf) as [Hn' _]%has_shape_spec.
    apply list_eq. intros i.
    destruct (update_position s (Some (lb, ub)) !! i) as [y|] eqn:Hy.
    + destruct (update_position_rows s lb ub i y)
        as (x & v & Hx & Hv & _ & Hcases); try done.
      assert (update_position s None !! i = Some (zip_with s_add x v)) as Ht.
      { unfold update_position, mat_zip. by rewrite lookup_zip_with, Hx, Hv. }
      destruct Hcases as [[_ ->]|[Hout _]]; [done|].
      destruct Hout. by apply (Hall i).
    + symmetry. apply lookup_ge_None. apply lookup_ge_None in Hy. lia.
Qed.
End bounds_facts.

Section empty_box.
Context {F : Type} `{OrderLaws F}.

(** X9.  Bounds that no point satisfies freeze the swarm: when the upper
    bound of some dimension is below its lower bound, [update_position]
    returns the old positions unchanged, and raises nothing. *)
Theorem update_position_empty_box (s : Swarm F) (lb ub : list F) j l u :
  swarm_wf s = true → length lb = dimensions s → length ub = dimensions s →
  lb !! j = Some l → ub !! j = Some u → s_lt u l = true →
  update_position s (Some (lb, ub)) = position s.
Proof.
  intros Hwf Hlb Hub Hl Hu Hlt. apply list_eq. intros i.
  pose proof Hwf as (Hpos & Hvel & _)%swarm_wf_elim.
  destruct (decide (i < n_particles s)) as [Hi|Hi].
  - destruct (has_shape_lookup _ _ _ i Hpos Hi) as (x & Hx & Hxd).
    destruct (has_shape_lookup _ _ _ i Hvel Hi) as (v & Hv & Hvd).
    rewrite (update_position_row s lb ub i x v), Hx by done. f_equal.
    destruct (forallb id (zip_with s_le lb (zip_with s_add x v)) &&
              forallb id (zip_with s_le (zip_with s_add x v) ub)) eqn:Hmask;
      [|done].
    eapply within_spec in Hmask; try done; [|rewrite length_zip_with; lia].
    destruct (lookup_lt_is_Some_2 (zip_with s_add x v) j) as [t Ht].
    { rewrite length_zip_with. apply lookup_lt_Some in Hl. lia. }
    destruct (Hmask j l u t Hl Hu Ht) as [Hlo Hhi].
    pose proof (not_lt_of_le _ _ (le_trans _ _ _ Hlo Hhi)). congruence.
  - pose proof (update_position_shape s (Some (lb, ub)) Hwf) as [Hn _]%has_shape_spec.
    apply has_shape_spec in Hpos as [Hn' _].
    by rewrite !lookup_ge_None_2 by lia.
Qed.
End empty_box.

(** X10.  On binary64 floats the bounds keep NaN out: when no cell of the
    old positions is NaN, no cell of the positions [update_position] returns
    with bounds is NaN, whatever the velocities hold. *)
Theorem update_position_bounds_no_nan (s : Swarm float) (lb ub : list float) :
  swarm_wf s = true → length lb = dimensions s → length ub = dimensions s →
  (∀ i j x, cell (position s) i j = Some x → PrimFloat.is_nan x = false) →
  ∀ i j y, cell (update_position s (Some (lb, ub))) i j = Some y →
    PrimFloat.is_nan y = false.
Proof.
  intros Hwf Hlb Hub Hold i j y Hy. unfold cell in Hy.
  destruct (update_position s (Some (lb, ub)) !! i) as [row|] eqn:Hrow; [|done].
  simpl in Hy.
  destruct (update_position_rows s lb ub i row)
    as (x & v & Hx & _ & Hxd & [[Hin ->]|[_ ->]]); try done.
  - destruct (lookup_lt_is_Some_2 lb j) as [l Hl].
    { apply lookup_lt_Some in Hy. rewrite length_zip_with in Hy. lia. }
    destruct (lookup_lt_is_Some_2 ub j) as [u Hu].
    { apply lookup_lt_Some in Hl. lia. }
    destruct (Hin j l u y Hl Hu Hy) as [Hlo _].
    by apply float_le_not_nan in Hlo as [_ Hnan].
  - apply (Hold i j). unfold cell. by rewrite Hx.
Qed.

(** ** The neighbourhood operator at the ends of its range *)

Section neighborhood_ends.
Context {F : Type} `{Scalar F} `{AsFloat64 F}.

(** X11.  With [k = 1], on whatever index array the query returns with one
    neighbour for every particle and none missing, [best_neighbor] is 0 at
    every particle and the operator returns the personal best of particle 0,
    position and cost: neither the neighbours found nor the personal bests
    of the other particles enter the result.  This holds of every scalar,
    costs that are NaN included. *)
Theorem update_gbest_neighborhood_one_returns_first
    (query : list (list float) → list (list float) → Z → Z
             → result (list (list nat)))
    (s : Swarm F) (p : Z) (idx : list (list nat)) (bp0 : list F) (bc0 : F) :
  swarm_wf s = true →
  query (float64 (position s)) (float64 (position s)) p 1%Z = Ok idx →
  index_array (n_particles s) 1 idx = true →
  pbest_pos s !! 0 = Some bp0 → pbest_cost s !! 0 = Some bc0 →
  best_neighbors s 1 idx = Ok (replicate (n_particles s) 0) ∧
  take_idx (pbest_cost s) (replicate (n_particles s) 0)
    = Ok (replicate (n_particles s) bc0) ∧
  update_gbest_neighborhood_with query s p 1 = Ok (bp0, bc0).
Proof.
  intros Hwf Hidx Harr Hbp0 Hbc0.
  destruct (gbest_neighborhood_first_particle query s p idx bp0 bc0)
    as [Hbn Hres]; try done.
  split_and!; try done. by apply take_idx_replicate.
Qed.
End neighborhood_ends.

Section neighborhood_ends_order.
Context {F : Type} `{CompareLaws F} `{AsFloat64 F}.

(** X12.  With [k = n_particles] (two particles or more, no NaN among the
    personal-best costs), on an index array in which every particle is a
    neighbour of every particle, the operator returns a least entry of
    [pbest_cost], as [update_gbest] does, paired with the personal-best
    position of particle 0, whichever particle holds that minimum. *)
Theorem update_gbest_neighborhood_whole_swarm
    (query : list (list float) → list (list float) → Z → Z
             → result (list (list nat)))
    (s : Swarm F) (p : Z) (idx : list (list nat)) :
  swarm_wf s = true → 1 < n_particles s →
  no_nan (pbest_cost s) = true →
  query (float64 (position s)) (float64 (position s)) p
        (Z.of_nat (n_particles s)) = Ok idx →
  index_array (n_particles s) (n_particles s) idx = true →
  includes_all (n_particles s) idx = true →
  ∃ bp0 gbest_pos c c',
    pbest_pos s !! 0 = Some bp0 ∧
    update_gbest s = Ok (gbest_pos, c') ∧
    update_gbest_neighborhood_with query s p (Z.of_nat (n_particles s))
      = Ok (bp0, c) ∧
    is_min_of c (pbest_cost s) ∧ s_le c c' = true ∧ s_le c' c = true.
Proof.
  intros Hwf Hn Hnan Hidx Harr Hall.
  pose proof Hwf as (_ & _ & _ & _ & Hpc & _)%swarm_wf_elim.
  pose proof (includes_all_self _ _ _ Harr Hall) as Hself.
  pose proof Harr as [Hidxlen _]%index_array_spec.
  rewrite <-(Nat2Z.id (n_particles s)) in Harr at 2.
  destruct (gbest_neighborhood_min query s p (Z.of_nat (n_particles s)) idx)
    as (bn & cs & i & bp & bc & Hbest & Hcs & Hres & Hfirst & Hbp & Hmin);
    try done; [lia..|].
  destruct (update_gbest_first s Hwf) as (g & gp & gc & Hg & (_ & Hgmin & _) & _);
    [|done|].
  { intros Hnil. rewrite Hnil in Hpc. simpl in Hpc. lia. }
  assert (i = 0) as ->.
  { destruct i as [|i]; [done|]. exfalso.
    destruct Hfirst as (_ & _ & Hbefore).
    destruct (lookup_lt_is_Some_2 idx 0) as [row Hrow]; [lia|].
    destruct (Forall2_lookup_l _ _ _ _ _ Hbest Hrow) as (b & Hb & _ & c & Hc & Hcmin).
    destruct (Forall2_lookup_l _ _ _ _ _ Hcs Hb) as (c' & Hc' & Hbc').
    assert (c' = c) as -> by congruence.
    destruct Hmin as [[t Ht]%list_elem_of_lookup _].
    assert (s_le c bc = true) as Hle.
    { apply (Hcmin t); [|done].
      apply (proj1 (includes_all_spec _ _) Hall).
      - by eapply list_elem_of_lookup_2.
      - rewrite <-Hpc. by eapply lookup_lt_Some. }
    pose proof (Hbefore 0 c ltac:(lia) Hc') as Hlt.
    by rewrite (cmp_not_le_of_lt _ _ Hlt) in Hle. }
  exists bp, gp, bc, gc. split_and!; try done.
  - apply Hmin, Hgmin.
  - apply Hgmin, Hmin.
Qed.

(** X13.  For every [k] from 1 to [n_particles] and personal-best costs
    without NaN, on an index array of the query in which no neighbour is
    missing (coinciding positions or not), the operator returns an entry of
    [pbest_cost] and a row of [pbest_pos], and its cost is never below the
    cost [update_gbest] returns. *)
Theorem update_gbest_neighborhood_range
    (query : list (list float) → list (list float) → Z → Z
             → result (list (list nat)))
    (s : Swarm F) (p k : Z) (idx : list (list nat)) :
  swarm_wf s = true → (1 ≤ k ≤ Z.of_nat (n_particles s))%Z →
  no_nan (pbest_cost s) = true →
  query (float64 (position s)) (float64 (position s)) p k = Ok idx →
  index_array (n_particles s) (Z.to_nat k) idx = true →
  ∃ best_pos best_cost gbest_pos gbest_cost,
    update_gbest_neighborhood_with query s p k = Ok (best_pos, best_cost) ∧
    update_gbest s = Ok (gbest_pos, gbest_cost) ∧
    best_cost ∈ pbest_cost s ∧ best_pos ∈ pbest_pos s ∧
    s_le gbest_cost best_cost = true.
Proof.
  intros Hwf Hk Hnan Hidx Harr.
  pose proof Hwf as (_ & _ & Hpp & _ & Hpc & _)%swarm_wf_elim.
  destruct (update_gbest_first s Hwf)
    as (g & gp & gc & Hg & (Hgc & [_ Hgmin] & _) & _); [|done|].
  { intros Hnil. rewrite Hnil in Hpc. simpl in Hpc. lia. }
  assert (∃ bp bc, update_gbest_neighborhood_with query s p k = Ok (bp, bc) ∧
                   bc ∈ pbest_cost s ∧ bp ∈ pbest_pos s)
    as (bp & bc & Hres & Hbc & Hbp).
  { destruct (decide (k = 1%Z)) as [->|Hk1].
    - destruct (lookup_lt_is_Some_2 (pbest_cost s) 0) as [bc0 Hbc0]; [lia|].
      destruct (has_shape_lookup _ _ _ 0 Hpp) as (bp0 & Hbp0 & _); [lia|].
      destruct (gbest_neighborhood_first_particle query s p idx bp0 bc0)
        as [_ Hres]; try done.
      exists bp0, bc0. split_and!; [done|..]; apply list_elem_of_lookup; eauto.
    - destruct (gbest_neighborhood_general query s p k idx)
        as (bn & cs & bc & i & bp & _ & _ & _ & Hcs%take_idx_Ok & Hlen
            & Hbc & Hi & Hbp & Hres); try done; [lia..|].
      exists bp, bc. split_and!; [done| |apply list_elem_of_lookup; eauto].
      destruct (np_argmin_min cs i Hi) as (m & Hm & Him).
      assert (m = bc) as -> by congruence.
      destruct (Forall2_lookup_r _ _ _ _ _ Hcs Him) as (b & _ & Hb).
      apply list_elem_of_lookup. eauto. }
  exists bp, bc, gp, gc. split_and!; try done. by apply Hgmin.
Qed.
End neighborhood_ends_order.

(** ** [update_gbest] on an empty swarm *)

Section gbest_errors.
Context {F : Type} `{Scalar F}.

(** X14.  [update_gbest] fails on the swarm without particles, with the
    ValueError of the argmin of an empty array, and only there: with one
    particle or more it returns the personal-best position and the
    personal-best cost of one and the same particle, the one at numpy's
    argmin of [pbest_cost].  This holds of every scalar, and so of costs
    with NaN, where numpy's argmin and minimum both give the first NaN. *)
Theorem update_gbest_errors (s : Swarm F) :
  swarm_wf s = true →
  (n_particles s = 0 → update_gbest s = Raise ValueError) ∧
  (0 < n_particles s →
     ∃ i best_pos best_cost,
       np_argmin (pbest_cost s) = Ok i ∧
       update_gbest s = Ok (best_pos, best_cost) ∧
       pbest_pos s !! i = Some best_pos ∧ pbest_cost s !! i = Some best_cost).
Proof.
  intros (_ & _ & Hpp & _ & Hpc & _)%swarm_wf_elim. split.
  - intros Hn. rewrite Hn in Hpc. unfold update_gbest.
    by destruct (pbest_cost s).
  - intros Hn.
    destruct (np_argmin_Ok (pbest_cost s)) as (i & Hi & Hlt).
    { intros Hnil. rewrite Hnil in Hpc. simpl in Hpc. lia. }
    destruct (np_argmin_min _ _ Hi) as (m & Hm & Him).
    destruct (has_shape_lookup _ _ _ i Hpp) as (bp & Hbp & _); [lia|].
    exists i, bp, m. split_and!; try done.
    unfold update_gbest, index. rewrite Hi, Hm. simpl. by rewrite Hbp.
Qed.
End gbest_errors.

(** ** Objects without the attributes of a swarm *)

Lemma present_in {A} (absent : list string) (name : string) (a : A) :
  name ∈ absent → present absent name a = None.
Proof. intros Hin. unfold present. by rewrite bool_decide_eq_true_2. Qed.

Lemma present_out {A} (absent : list string) (name : string) (a : A) :
  name ∉ absent → present absent name a = Some a.
Proof. intros Hout. unfold present. by rewrite bool_decide_eq_false_2. Qed.

Lemma except_attribute_lib {A} (ty : string) (r : result A) :
  except_attribute ty (lib r) = ([], lib r).
Proof. by destruct r. Qed.

(** Case analysis on the attributes an operator reads. *)
Ltac split_present :=
  repeat match goal with
         | |- context [present ?ab ?n ?a] =>
             destruct (decide (n ∈ ab));
             [rewrite (present_in ab n a) by done
             |rewrite (present_out ab n a) by done]
         end.

Ltac obj_fields :=
  unfold obj_of;
  cbn [type_repr o_position o_velocity o_n_particles o_dimensions o_behavior
       o_pbest_pos o_best_pos o_pbest_cost o_best_cost o_current_cost].

Section object_outcomes.
Context {F : Type} `{Scalar F}.

(** X15.  [update_pbest] on an object made from a swarm: when one of the
    attributes [dimensions], [current_cost], [pbest_cost], [pbest_pos],
    [position] is absent it logs the message that names the type of the
    object, once, and raises AttributeError; when the five are present it
    logs nothing and returns what it returns on the swarm, whatever else is
    absent. *)
Theorem update_pbest_obj_outcome (ty : string) (s : Swarm F) (absent : list string) :
  swarm_wf s = true →
  ("dimensions" ∈ absent ∨ "current_cost" ∈ absent ∨ "pbest_cost" ∈ absent ∨
   "pbest_pos" ∈ absent ∨ "position" ∈ absent →
   update_pbest_obj (obj_of ty s absent)
     = ([swarm_msg ty], Raises AttributeError)) ∧
  ("dimensions" ∉ absent → "current_cost" ∉ absent → "pbest_cost" ∉ absent →
   "pbest_pos" ∉ absent → "position" ∉ absent →
   update_pbest_obj (obj_of ty s absent) = ([], Returns (update_pbest s))).
Proof.
  intros _. unfold update_pbest_obj. obj_fields. split.
  - intros Habs. split_present; simpl; first [done | tauto].
  - intros. by rewrite !present_out by done.
Qed.

(** X16.  [update_gbest] on an object made from a swarm: without [pbest_pos]
    or [pbest_cost] it logs the message and raises AttributeError, also for
    a swarm without particles (the attribute is read before the argmin can
    fail); with both present it logs nothing, and returns or raises as it
    does on the swarm. *)
Theorem update_gbest_obj_outcome (ty : string) (s : Swarm F) (absent : list string) :
  swarm_wf s = true →
  ("pbest_pos" ∈ absent ∨ "pbest_cost" ∈ absent →
   update_gbest_obj (obj_of ty s absent)
     = ([swarm_msg ty], Raises AttributeError)) ∧
  ("pbest_pos" ∉ absent → "pbest_cost" ∉ absent →
   update_gbest_obj (obj_of ty s absent) = ([], lib (update_gbest s))).
Proof.
  intros _. unfold update_gbest_obj. obj_fields. split.
  - intros Habs. split_present; simpl; first [done | tauto].
  - intros. rewrite !present_out by done. simpl. unfold update_gbest.
    destruct (np_argmin (pbest_cost s)) as [i|e]; simpl; [|done].
    destruct (index (pbest_pos s) i) as [bp|e]; simpl; [|done].
    by destruct (np_min (pbest_cost s)) as [bc|e].
Qed.

Lemma bcast_zip_same {A B C} (f : A → B → C) (a : list A) (b : list B) :
  length a = length b → bcast_zip f a b = Ok (zip_with f a b).
Proof. intros Hlen. unfold bcast_zip. by rewrite bool_decide_eq_true_2. Qed.

Lemma bcast_zip_ValueError {A B C} (f : A → B → C) (a : list A) (b : list B) :
  length a ≠ length b → length a ≠ 1 → length b ≠ 1 →
  bcast_zip f a b = Raise ValueError.
Proof.
  intros Hlen Ha Hb. unfold bcast_zip. rewrite bool_decide_eq_false_2 by done.
  by destruct a as [|x [|x' a]], b as [|y [|y' b]].
Qed.

(** On matrices of one shape the comparison is the elementwise one. *)
Lemma np_le2_same n d (a b : list (list F)) :
  has_shape n d a = true → has_shape n d b = true →
  np_le2 a b = Ok (mat_zip s_le a b).
Proof.
  intros [Han Had]%has_shape_spec [Hbn Hbd]%has_shape_spec.
  unfold np_le2, mat_zip. apply mapM_Ok.
  apply Forall2_same_length_lookup. split.
  - by rewrite !length_zip_with.
  - intros i [ra rb] row [Hra Hrb]%lookup_zip_Some Hrow. simpl.
    apply lookup_zip_with_Some in Hrow as (ra' & rb' & -> & Hra' & Hrb').
    assert (ra' = ra) as -> by congruence. assert (rb' = rb) as -> by congruence.
    apply bcast_zip_same. by rewrite (Had _ _ Hra), (Hbd _ _ Hrb).
Qed.

Lemma has_shape_replicate {A} n d (row : list A) :
  length row = d → has_shape n d (replicate n row) = true.
Proof.
  intros Hd. apply has_shape_spec. split; [apply length_replicate|].
  by intros i r [-> _]%lookup_replicate.
Qed.

(** X17.  [update_position] on an object made from a swarm.  Without
    [position] or [velocity] it logs the message and raises AttributeError,
    whatever the bounds.  Without bounds it needs these two only, and
    returns what it returns on the swarm even when [n_particles] and
    [dimensions] are absent.  With bounds it reads [n_particles] next, and
    logs and raises AttributeError when that is absent; with bounds of
    length [dimensions] it then reads [dimensions], with the same outcome
    when that is absent, and returns what it returns on the swarm when the
    four are present, logging nothing.  Lower bounds of a length that numpy
    cannot broadcast against the positions end the call in a ValueError,
    which is not logged, before [dimensions] is read. *)
Theorem update_position_obj_outcome (ty : string) (s : Swarm F)
    (absent : list string) (lb ub : list F) :
  swarm_wf s = true →
  (∀ bounds, "position" ∈ absent ∨ "velocity" ∈ absent →
     update_position_obj (obj_of ty s absent) bounds
       = ([swarm_msg ty], Raises AttributeError)) ∧
  ("position" ∉ absent → "velocity" ∉ absent →
     update_position_obj (obj_of ty s absent) None
       = ([], Returns (update_position s None))) ∧
  ("position" ∉ absent → "velocity" ∉ absent → "n_particles" ∈ absent →
     update_position_obj (obj_of ty s absent) (Some (lb, ub))
       = ([swarm_msg ty], Raises AttributeError)) ∧
  (length lb = dimensions s → length ub = dimensions s →
   "position" ∉ absent → "velocity" ∉ absent → "n_particles" ∉ absent →
   "dimensions" ∈ absent →
     update_position_obj (obj_of ty s absent) (Some (lb, ub))
       = ([swarm_msg ty], Raises AttributeError)) ∧
  (length lb = dimensions s → length ub = dimensions s →
   "position" ∉ absent → "velocity" ∉ absent →
   "n_particles" ∉ absent → "dimensions" ∉ absent →
     update_position_obj (obj_of ty s absent) (Some (lb, ub))
       = ([], Returns (update_position s (Some (lb, ub))))) ∧
  (0 < n_particles s →
   length lb ≠ dimensions s → length lb ≠ 1 → dimensions s ≠ 1 →
   "position" ∉ absent → "velocity" ∉ absent → "n_particles" ∉ absent →
     update_position_obj (obj_of ty s absent) (Some (lb, ub))
       = ([], Raises (Lib ValueError))).
Proof.
  intros Hwf. pose proof Hwf as (Hpos & Hvel & _)%swarm_wf_elim.
  assert (has_shape (n_particles s) (dimensions s)
            (mat_zip s_add (position s) (velocity s)) = true) as Htemp
    by by apply has_shape_mat_zip.
  unfold update_position_obj. obj_fields. split_and!.
  - intros bounds Habs. split_present; simpl; first [done | tauto].
  - intros. by rewrite !present_out by done.
  - intros Hp Hv Hn.
    by rewrite !(present_out absent "position"), !(present_out absent "velocity"),
      !(present_in absent "n_particles") by done.
  - intros Hlb Hub Hp Hv Hn Hd.
    rewrite !(present_out absent "position"), !(present_out absent "velocity"),
      !(present_out absent "n_particles"), !(present_in absent "dimensions")
      by done.
    simpl.
    rewrite (np_le2_same (n_particles s) (dimensions s)), (np_le2_same (n_particles s) (dimensions s));
      try done; by apply has_shape_replicate.
  - intros Hlb Hub Hp Hv Hn Hd. rewrite !present_out by done. simpl.
    rewrite (np_le2_same (n_particles s) (dimensions s)), (np_le2_same (n_particles s) (dimensions s));
      try done; by apply has_shape_replicate.
  - intros Hn Hlen Hlb1 Hd1 Hp Hv Hnp.
    rewrite !(present_out absent "position"), !(present_out absent "velocity"),
      !(present_out absent "n_particles") by done.
    simpl.
    assert (np_le2 (replicate (n_particles s) lb)
                   (mat_zip s_add (position s) (velocity s))
            = Raise ValueError) as ->; [|done].
    apply has_shape_spec in Htemp as [Htn Htd].
    destruct (n_particles s) as [|n]; [lia|].
    destruct (mat_zip s_add (position s) (velocity s)) as [|t temp] eqn:Ht;
      [done|].
    unfold np_le2. simpl.
    rewrite bcast_zip_ValueError; [done|..]; rewrite ?(Htd 0 t eq_refl); done.
Qed.
End object_outcomes.

Section object_outcomes_velocity.
Context {F : Type} `{Scalar F}.

(** X18.  [update_velocity] on an object made from a swarm, in the order the
    source reads it: without [position] or [behavior] it logs the message
    about the type and raises AttributeError; with both present and one of
    the keys [c1], [c2], [w] missing it logs ['Missing keyword in
    swarm.behavior'] and raises KeyError, even when [pbest_pos], [best_pos]
    or [velocity] are absent too; with the keys present and one of these
    three absent it is AttributeError again; with all five attributes
    present nothing is logged for a returned velocity. *)
Theorem update_velocity_obj_outcome (ty : string) (s : Swarm F)
    (absent : list string) (clamp : option (F * F)) (r1 r2 : list (list F)) :
  swarm_wf s = true →
  has_shape (n_particles s) (dimensions s) r1 = true →
  has_shape (n_particles s) (dimensions s) r2 = true →
  let call := update_velocity_obj (obj_of ty s absent) clamp r1 r2 in
  ("position" ∈ absent ∨ "behavior" ∈ absent →
     call = ([swarm_msg ty], Raises AttributeError)) ∧
  ("position" ∉ absent → "behavior" ∉ absent →
   behavior s !! "c1" = None ∨ behavior s !! "c2" = None ∨
   behavior s !! "w" = None →
     call = ([key_msg], Raises (Lib KeyError))) ∧
  ("position" ∉ absent → "behavior" ∉ absent →
   is_Some (behavior s !! "c1") → is_Some (behavior s !! "c2") →
   is_Some (behavior s !! "w") →
   "pbest_pos" ∈ absent ∨ "best_pos" ∈ absent ∨ "velocity" ∈ absent →
     call = ([swarm_msg ty], Raises AttributeError)) ∧
  ("position" ∉ absent → "behavior" ∉ absent → "pbest_pos" ∉ absent →
   "best_pos" ∉ absent → "velocity" ∉ absent →
   ∀ out, update_velocity s clamp r1 r2 = Ok out → call = ([], Returns out)).
Proof.
  intros _ _ _ call. subst call. unfold update_velocity_obj. obj_fields.
  split_and!.
  - intros Habs. split_present; simpl; first [done | tauto].
  - intros Hpos Hbeh Hkey.
    rewrite !(present_out absent "position"), !(present_out absent "behavior")
      by done.
    simpl.
    destruct (behavior s !! "c1") as [c1|]; simpl; [|done].
    destruct (behavior s !! "c2") as [c2|]; simpl; [|done].
    destruct (behavior s !! "w") as [w|]; simpl; [|done].
    by destruct Hkey as [?|[?|?]].
  - intros Hpos Hbeh [c1 Hc1] [c2 Hc2] [w Hw] Habs.
    rewrite !(present_out absent "position"), !(present_out absent "behavior")
      by done.
    simpl. rewrite Hc1, Hc2, Hw. simpl.
    split_present; simpl; try done; try tauto.
    all: by destruct clamp as [[? ?]|].
  - intros Hpos Hbeh Hpp Hbp Hvel out Hout. rewrite !present_out by done. simpl.
    unfold update_velocity in Hout.
    destruct (behavior s !! "c1") as [c1|]; simpl in *; [|done].
    destruct (behavior s !! "c2") as [c2|]; simpl in *; [|done].
    destruct (behavior s !! "w") as [w|]; simpl in *; [|done].
    destruct clamp as [[a b]|]; simpl in *; by injection Hout as <-.
Qed.
End object_outcomes_velocity.

Section object_outcomes_neighborhood.
Context {F : Type} `{Scalar F} `{AsFloat64 F}.
Variable query :
  list (list float) → list (list float) → Z → Z → result (list (list nat)).

Lemma best_neighbors_inline (s : Swarm F) (k : Z) (idx : list (list nat)) :
  (if (k =? 1)%Z then
     pbest_cost ← getattr (Some (pbest_cost s));
     costs ← lib (take_idx pbest_cost (concat idx));
     lib (argmin_axis1 ((λ c, [c]) <$> costs))
   else
     pbest_cost ← getattr (Some (pbest_cost s));
     cost_rows ← lib (mapM (take_idx pbest_cost) idx);
     idx_min ← lib (argmin_axis1 cost_rows);
     lib (pick idx idx_min)) = lib (best_neighbors s k idx).
Proof.
  unfold best_neighbors. destruct (k =? 1)%Z; simpl.
  - destruct (take_idx (pbest_cost s) (concat idx)); simpl; [|done]. done.
  - destruct (mapM (take_idx (pbest_cost s)) idx); simpl; [|done].
    destruct (argmin_axis1 _); simpl; done.
Qed.

(** X19.  [update_gbest_neighborhood] on an object made from a swarm, for
    whatever the query does.  Without [position] it logs the message and
    raises AttributeError.  With [position] present an exception of the
    query (its ValueError for [p < 1], say) is raised on and not logged,
    even when [pbest_cost] and [pbest_pos] are absent, since the query runs
    before they are read.  After a query that has returned, an absent
    [pbest_cost] gives the logged AttributeError; so does an absent
    [pbest_pos] when the index array has no neighbour missing.  With the
    three attributes present nothing is logged, and the call returns or
    raises as on the swarm. *)
Theorem update_gbest_neighborhood_obj_outcome (ty : string) (s : Swarm F)
    (absent : list string) (p k : Z) :
  swarm_wf s = true →
  let data := float64 (position s) in
  let call := update_gbest_neighborhood_obj query (obj_of ty s absent) p k in
  ("position" ∈ absent → call = ([swarm_msg ty], Raises AttributeError)) ∧
  ("position" ∉ absent → ∀ e, query data data p k = Raise e →
     call = ([], Raises (Lib e))) ∧
  ("position" ∉ absent → "pbest_cost" ∈ absent →
   ∀ idx, query data data p k = Ok idx →
     call = ([swarm_msg ty], Raises AttributeError)) ∧
  ("position" ∉ absent → "pbest_cost" ∉ absent → "pbest_pos" ∈ absent →
   0 < n_particles s → (1 ≤ k)%Z →
   ∀ idx, query data data p k = Ok idx →
     index_array (n_particles s) (Z.to_nat k) idx = true →
     call = ([swarm_msg ty], Raises AttributeError)) ∧
  ("position" ∉ absent → "pbest_cost" ∉ absent → "pbest_pos" ∉ absent →
     call = ([], lib (update_gbest_neighborhood_with query s p k))).
Proof.
  intros Hwf data call. subst data call.
  unfold update_gbest_neighborhood_obj. obj_fields. split_and!.
  - intros Habs. by rewrite (present_in absent "position").
  - intros Hpos e He. rewrite !(present_out absent "position") by done. simpl.
    by rewrite He.
  - intros Hpos Hpc idx Hidx.
    rewrite !(present_out absent "position") by done. simpl. rewrite Hidx. simpl.
    rewrite !(present_in absent "pbest_cost") by done. simpl.
    by destruct (k =? 1)%Z.
  - intros Hpos Hpc Hpp Hn Hk idx Hidx Harr.
    rewrite !(present_out absent "position") by done. simpl. rewrite Hidx. simpl.
    rewrite !(present_out absent "pbest_cost") by done.
    rewrite !(present_in absent "pbest_pos") by done.
    rewrite (best_neighbors_inline s k idx).
    assert (∃ bn cs bc,
      best_neighbors s k idx = Ok bn ∧
      take_idx (pbest_cost s) bn = Ok cs ∧ np_min cs = Ok bc)
      as (bn & cs & bc & Hbn & Hcs & Hbc).
    { destruct (decide (k = 1%Z)) as [->|Hk1].
      - pose proof Hwf as (_ & _ & Hpps & _ & Hlen & _)%swarm_wf_elim.
        destruct (lookup_lt_is_Some_2 (pbest_cost s) 0) as [bc0 Hbc0]; [lia|].
        destruct (has_shape_lookup _ _ _ 0 Hpps Hn) as (bp0 & Hbp0 & _).
        destruct (gbest_neighborhood_first_particle query s p idx bp0 bc0)
          as [Hbn _]; try done.
        destruct (n_particles s) as [|n]; [lia|].
        eexists _, _, _. split_and!; [exact Hbn|by apply take_idx_replicate|].
        apply np_min_replicate.
      - destruct (gbest_neighborhood_general query s p k idx)
          as (bn & cs & bc & i & bp & Hbn & _ & _ & Hcs & _ & Hbc & _);
          try done; [lia|].
        by exists bn, cs, bc. }
    rewrite Hbn. simpl. rewrite Hcs. simpl. by rewrite Hbc.
  - intros Hpos Hpc Hpp. rewrite !present_out by done. simpl.
    unfold update_gbest_neighborhood_with.
    destruct (query (float64 (position s)) (float64 (position s)) p k)
      as [idx|e]; simpl; [|done].
    assert (∀ bn : list nat,
      (lib (take_idx (pbest_cost s) bn) ≫= λ costs,
       lib (np_min costs) ≫= λ best_cost,
       lib (take_idx (pbest_cost s) bn) ≫= λ costs',
       lib (np_argmin costs') ≫= λ i,
       lib (index (pbest_pos s) i) ≫= λ best_pos,
       Returns (best_pos, best_cost))
      = lib (costs ← take_idx (pbest_cost s) bn;
             best_cost ← np_min costs;
             i ← np_argmin costs;
             best_pos ← index (pbest_pos s) i;
             mret (best_pos, best_cost))) as Hrest.
    { intros bn. destruct (take_idx (pbest_cost s) bn) as [cs|e]; simpl; [|done].
      destruct (np_min cs) as [bc|e]; simpl; [|done].
      destruct (np_argmin cs) as [i|e]; simpl; [|done].
      by destruct (index (pbest_pos s) i) as [bp|e]. }
    unfold best_neighbors.
    destruct (k =? 1)%Z; simpl.
    + destruct (take_idx (pbest_cost s) (concat idx)) as [cs0|e]; simpl; [|done].
      destruct (argmin_axis1 _) as [bn|e]; simpl; [|done].
      rewrite Hrest. apply except_attribute_lib.
    + destruct (mapM (take_idx (pbest_cost s)) idx) as [rows|e]; simpl; [|done].
      destruct (argmin_axis1 rows) as [im|e]; simpl; [|done].
      destruct (pick idx im) as [bn|e]; simpl; [|done].
      rewrite Hrest. apply except_attribute_lib.
Qed.
End object_outcomes_neighborhood.

(** ** The further properties at the example swarms *)

Lemma gbest_after_pbest_witness :
  swarm_wf three_particles_Z = true ∧ pbest_cost three_particles_Z ≠ [] ∧
  ∃ best_pos best_cost,
    update_gbest (with_pbest three_particles_Z (update_pbest three_particles_Z))
      = Ok (best_pos, best_cost) ∧
    is_min_of best_cost
      (pbest_cost three_particles_Z ++ current_cost three_particles_Z) ∧
    ∀ old_pos old_cost,
      update_gbest three_particles_Z = Ok (old_pos, old_cost) →
      s_le best_cost old_cost = true.
Proof.
  split; [reflexivity|]. split; [discriminate|].
  apply (gbest_after_pbest three_particles_Z); [reflexivity|discriminate].
Defined.

Lemma update_pbest_nan_witness :
  swarm_wf nan_particles = true ∧
  current_cost nan_particles !! 1 = Some PrimFloat.nan ∧
  pbest_cost nan_particles !! 1 = Some 1.0%float ∧
  (PrimFloat.is_nan PrimFloat.nan = true ∨ PrimFloat.is_nan 1.0 = true) ∧
  (update_pbest nan_particles).2 !! 1 = Some 1.0%float ∧
  (update_pbest nan_particles).1 !! 1 = pbest_pos nan_particles !! 1.
Proof.
  do 3 (split; [reflexivity|]). split; [left; reflexivity|].
  apply (update_pbest_nan nan_particles 1 PrimFloat.nan 1.0%float);
    [reflexivity|reflexivity|reflexivity|left; reflexivity].
Defined.

Lemma two_particles_velocity_clamped :
  ∀ i j v, cell (velocity two_particles) i j = Some v →
    s_le (-0.5)%float v = true ∧ s_le v 0.25%float = true.
Proof.
  intros [|[|i]] [|j] v Hc; vm_compute in Hc; try discriminate Hc;
    injection Hc as <-; split; reflexivity.
Defined.

Lemma update_velocity_clamp_invariant_witness :
  swarm_wf two_particles = true ∧
  has_shape (n_particles two_particles) (dimensions two_particles) draw1 = true ∧
  has_shape (n_particles two_particles) (dimensions two_particles) draw2 = true ∧
  behavior two_particles !! "c1" = Some 0.5%float ∧
  behavior two_particles !! "c2" = Some 0.25%float ∧
  behavior two_particles !! "w" = Some 0.75%float ∧
  (∀ i j v, cell (velocity two_particles) i j = Some v →
     s_le (-0.5)%float v = true ∧ s_le v 0.25%float = true) ∧
  ∃ out,
    update_velocity two_particles (Some (-0.5, 0.25)%float) draw1 draw2 = Ok out ∧
    ∀ i j o, cell out i j = Some o →
      s_le (-0.5)%float o = true ∧ s_le o 0.25%float = true.
Proof.
  do 6 (split; [reflexivity|]). split; [exact two_particles_velocity_clamped|].
  apply (update_velocity_clamp_invariant two_particles (-0.5)%float 0.25%float
           draw1 draw2 0.5%float 0.25%float 0.75%float);
    [reflexivity..|exact two_particles_velocity_clamped].
Defined.

Lemma update_velocity_empty_clamp_witness :
  swarm_wf three_particles_Z_pso = true ∧
  has_shape (n_particles three_particles_Z_pso) (dimensions three_particles_Z_pso)
    draw1_Z = true ∧
  has_shape (n_particles three_particles_Z_pso) (dimensions three_particles_Z_pso)
    draw2_Z = true ∧
  behavior three_particles_Z_pso !! "c1" = Some 2%Z ∧
  behavior three_particles_Z_pso !! "c2" = Some 2%Z ∧
  behavior three_particles_Z_pso !! "w" = Some 1%Z ∧
  s_lt 0%Z 1%Z = true ∧
  update_velocity three_particles_Z_pso (Some (1, 0)%Z) draw1_Z draw2_Z
    = Ok (velocity three_particles_Z_pso).
Proof.
  do 7 (split; [reflexivity|]).
  apply (update_velocity_empty_clamp three_particles_Z_pso 1%Z 0%Z draw1_Z draw2_Z
           2%Z 2%Z 1%Z); reflexivity.
Defined.

Lemma two_particles_velocity_no_nan :
  ∀ i j v, cell (velocity two_particles) i j = Some v → PrimFloat.is_nan v = false.
Proof.
  intros [|[|i]] [|j] v Hc; vm_compute in Hc; try discriminate Hc;
    injection Hc as <-; reflexivity.
Defined.

Lemma update_velocity_clamp_no_nan_witness :
  swarm_wf two_particles = true ∧
  has_shape (n_particles two_particles) (dimensions two_particles) draw1 = true ∧
  has_shape (n_particles two_particles) (dimensions two_particles) draw2 = true ∧
  behavior two_particles !! "c1" = Some 0.5%float ∧
  behavior two_particles !! "c2" = Some 0.25%float ∧
  behavior two_particles !! "w" = Some 0.75%float ∧
  (∀ i j v, cell (velocity two_particles) i j = Some v →
     PrimFloat.is_nan v = false) ∧
  ∃ out,
    update_velocity two_particles (Some (-0.125, 0.125)%float) draw1 draw2
      = Ok out ∧
    ∀ i j o, cell out i j = Some o → PrimFloat.is_nan o = false.
Proof.
  do 6 (split; [reflexivity|]). split; [exact two_particles_velocity_no_nan|].
  apply (update_velocity_clamp_no_nan two_particles (-0.125)%float 0.125%float
           draw1 draw2 0.5%float 0.25%float 0.75%float);
    [reflexivity..|exact two_particles_velocity_no_nan].
Defined.

Lemma three_particles_within :
  ∀ i x, position three_particles !! i = Some x →
    within [0.0%float] [10.0%float] x.
Proof.
  intros [|[|[|i]]] x Hx; vm_compute in Hx; try discriminate Hx;
    injection Hx as <-; intros [|j] l u y Hl Hu Hy;
    vm_compute in Hl, Hu, Hy; try discriminate Hl;
    injection Hl as <-; injection Hu as <-; injection Hy as <-;
    split; reflexivity.
Defined.

Lemma update_position_stays_within_witness :
  swarm_wf three_particles = true ∧
  length [0.0%float] = dimensions three_particles ∧
  length [10.0%float] = dimensions three_particles ∧
  (∀ i x, position three_particles !! i = Some x →
     within [0.0%float] [10.0%float] x) ∧
  ∀ i y, update_position three_particles (Some ([0.0], [10.0])%float) !! i
           = Some y →
    within [0.0%float] [10.0%float] y.
Proof.
  do 3 (split; [reflexivity|]). split; [exact three_particles_within|].
  apply (update_position_stays_within three_particles);
    [reflexivity..|exact three_particles_within].
Defined.

Lemma update_position_unbounded_witness :
  swarm_wf three_particles = true ∧
  (has_shape (n_particles three_particles) (dimensions three_particles)
     (update_position three_particles None) = true ∧
   (∀ i j x v, cell (position three_particles) i j = Some x →
      cell (velocity three_particles) i j = Some v →
      cell (update_position three_particles None) i j = Some (s_add x v)) ∧
   (∀ lb ub, length lb = dimensions three_particles →
      length ub = dimensions three_particles →
      (∀ i t, update_position three_particles None !! i = Some t →
         within lb ub t) →
      update_position three_particles (Some (lb, ub))
        = update_position three_particles None)).
Proof.
  split; [reflexivity|].
  apply (update_position_unbounded three_particles). reflexivity.
Defined.

Lemma update_position_empty_box_witness :
  swarm_wf three_particles_Z = true ∧
  length [5%Z] = dimensions three_particles_Z ∧
  length [3%Z] = dimensions three_particles_Z ∧
  [5%Z] !! 0 = Some 5%Z ∧ [3%Z] !! 0 = Some 3%Z ∧ s_lt 3%Z 5%Z = true ∧
  update_position three_particles_Z (Some ([5], [3])%Z)
    = position three_particles_Z.
Proof.
  do 6 (split; [reflexivity|]).
  apply (update_position_empty_box three_particles_Z [5%Z] [3%Z] 0 5%Z 3%Z);
    reflexivity.
Defined.

Lemma three_particles_position_no_nan :
  ∀ i j x, cell (position three_particles) i j = Some x →
    PrimFloat.is_nan x = false.
Proof.
  intros [|[|[|i]]] [|j] x Hc; vm_compute in Hc; try discriminate Hc;
    injection Hc as <-; reflexivity.
Defined.

Lemma update_position_bounds_no_nan_witness :
  swarm_wf three_particles = true ∧
  length [0.0%float] = dimensions three_particles ∧
  length [10.0%float] = dimensions three_particles ∧
  (∀ i j x, cell (position three_particles) i j = Some x →
     PrimFloat.is_nan x = false) ∧
  ∀ i j y,
    cell (update_position three_particles (Some ([0.0], [10.0])%float)) i j
      = Some y →
    PrimFloat.is_nan y = false.
Proof.
  do 3 (split; [reflexivity|]). split; [exact three_particles_position_no_nan|].
  apply (update_position_bounds_no_nan three_particles);
    [reflexivity..|exact three_particles_position_no_nan].
Defined.

Lemma update_gbest_neighborhood_one_returns_first_witness :
  swarm_wf two_particles = true ∧
  cKDTree_query (float64 (position two_particles))
                (float64 (position two_particles)) 2 1 = Ok [[0]; [1]] ∧
  index_array (n_particles two_particles) 1 [[0]; [1]] = true ∧
  pbest_pos two_particles !! 0 = Some [0.0]%float ∧
  pbest_cost two_particles !! 0 = Some 2.0%float ∧
  best_neighbors two_particles 1 [[0]; [1]]
    = Ok (replicate (n_particles two_particles) 0) ∧
  take_idx (pbest_cost two_particles) (replicate (n_particles two_particles) 0)
    = Ok (replicate (n_particles two_particles) 2.0%float) ∧
  update_gbest_neighborhood_with cKDTree_query two_particles 2 1
    = Ok ([0.0]%float, 2.0%float).
Proof.
  split; [reflexivity|]. split; [by vm_compute|]. do 3 (split; [reflexivity|]).
  apply (update_gbest_neighborhood_one_returns_first cKDTree_query two_particles
           2%Z [[0]; [1]] [0.0%float] 2.0%float);
    [reflexivity|by vm_compute|reflexivity..].
Defined.

Lemma update_gbest_neighborhood_whole_swarm_witness :
  swarm_wf three_particles = true ∧ 1 < n_particles three_particles ∧
  no_nan (pbest_cost three_particles) = true ∧
  cKDTree_query (float64 (position three_particles))
                (float64 (position three_particles)) 2
                (Z.of_nat (n_particles three_particles))
    = Ok [[0; 1; 2]; [1; 0; 2]; [2; 1; 0]] ∧
  index_array (n_particles three_particles) (n_particles three_particles)
              [[0; 1; 2]; [1; 0; 2]; [2; 1; 0]] = true ∧
  includes_all (n_particles three_particles)
               [[0; 1; 2]; [1; 0; 2]; [2; 1; 0]] = true ∧
  ∃ bp0 gbest_pos c c',
    pbest_pos three_particles !! 0 = Some bp0 ∧
    update_gbest three_particles = Ok (gbest_pos, c') ∧
    update_gbest_neighborhood_with cKDTree_query three_particles 2
      (Z.of_nat (n_particles three_particles)) = Ok (bp0, c) ∧
    is_min_of c (pbest_cost three_particles) ∧
    s_le c c' = true ∧ s_le c' c = true.
Proof.
  split; [reflexivity|]. split; [simpl; lia|]. split; [reflexivity|].
  split; [by vm_compute|]. do 2 (split; [reflexivity|]).
  apply (update_gbest_neighborhood_whole_swarm cKDTree_query three_particles 2%Z
           [[0; 1; 2]; [1; 0; 2]; [2; 1; 0]]);
    [reflexivity|simpl; lia|reflexivity|by vm_compute|reflexivity|reflexivity].
Defined.

Lemma update_gbest_neighborhood_range_witness :
  swarm_wf three_particles = true ∧
  (1 ≤ 2 ≤ Z.of_nat (n_particles three_particles))%Z ∧
  no_nan (pbest_cost three_particles) = true ∧
  cKDTree_query (float64 (position three_particles))
                (float64 (position three_particles)) 2 2
    = Ok [[0; 1]; [1; 0]; [2; 1]] ∧
  index_array (n_particles three_particles) (Z.to_nat 2)
              [[0; 1]; [1; 0]; [2; 1]] = true ∧
  ∃ best_pos best_cost gbest_pos gbest_cost,
    update_gbest_neighborhood_with cKDTree_query three_particles 2 2
      = Ok (best_pos, best_cost) ∧
    update_gbest three_particles = Ok (gbest_pos, gbest_cost) ∧
    best_cost ∈ pbest_cost three_particles ∧
    best_pos ∈ pbest_pos three_particles ∧
    s_le gbest_cost best_cost = true.
Proof.
  split; [reflexivity|]. split; [simpl; lia|]. split; [reflexivity|].
  split; [by vm_compute|]. split; [reflexivity|].
  apply (update_gbest_neighborhood_range cKDTree_query three_particles 2%Z 2%Z
           [[0; 1]; [1; 0]; [2; 1]]);
    [reflexivity|simpl; lia|reflexivity|by vm_compute|reflexivity].
Defined.

Lemma update_gbest_errors_witness :
  swarm_wf nan_pbest_particles = true ∧
  (n_particles nan_pbest_particles = 0 →
     update_gbest nan_pbest_particles = Raise ValueError) ∧
  (0 < n_particles nan_pbest_particles →
     ∃ i best_pos best_cost,
       np_argmin (pbest_cost nan_pbest_particles) = Ok i ∧
       update_gbest nan_pbest_particles = Ok (best_pos, best_cost) ∧
       pbest_pos nan_pbest_particles !! i = Some best_pos ∧
       pbest_cost nan_pbest_particles !! i = Some best_cost).
Proof.
  split; [reflexivity|].
  apply (update_gbest_errors nan_pbest_particles). reflexivity.
Defined.

Lemma update_pbest_obj_outcome_witness :
  swarm_wf two_particles = true ∧
  ("dimensions" ∈ ["pbest_cost"] ∨ "current_cost" ∈ ["pbest_cost"] ∨
   "pbest_cost" ∈ ["pbest_cost"] ∨ "pbest_pos" ∈ ["pbest_cost"] ∨
   "position" ∈ ["pbest_cost"] →
   update_pbest_obj (obj_of dict_type two_particles ["pbest_cost"])
     = ([swarm_msg dict_type], Raises AttributeError)) ∧
  ("dimensions" ∉ ["pbest_cost"] → "current_cost" ∉ ["pbest_cost"] →
   "pbest_cost" ∉ ["pbest_cost"] → "pbest_pos" ∉ ["pbest_cost"] →
   "position" ∉ ["pbest_cost"] →
   update_pbest_obj (obj_of dict_type two_particles ["pbest_cost"])
     = ([], Returns (update_pbest two_particles))).
Proof.
  split; [reflexivity|].
  apply (update_pbest_obj_outcome dict_type two_particles ["pbest_cost"]).
  reflexivity.
Defined.

Lemma update_gbest_obj_outcome_witness :
  swarm_wf two_particles = true ∧
  ("pbest_pos" ∈ ["pbest_pos"] ∨ "pbest_cost" ∈ ["pbest_pos"] →
   update_gbest_obj (obj_of dict_type two_particles ["pbest_pos"])
     = ([swarm_msg dict_type], Raises AttributeError)) ∧
  ("pbest_pos" ∉ ["pbest_pos"] → "pbest_cost" ∉ ["pbest_pos"] →
   update_gbest_obj (obj_of dict_type two_particles ["pbest_pos"])
     = ([], lib (update_gbest two_particles))).
Proof.
  split; [reflexivity|].
  apply (update_gbest_obj_outcome dict_type two_particles ["pbest_pos"]).
  reflexivity.
Defined.

Lemma update_position_obj_outcome_witness :
  swarm_wf three_particles = true ∧
  (∀ bounds, "position" ∈ ["dimensions"] ∨ "velocity" ∈ ["dimensions"] →
     update_position_obj (obj_of dict_type three_particles ["dimensions"]) bounds
       = ([swarm_msg dict_type], Raises AttributeError)) ∧
  ("position" ∉ ["dimensions"] → "velocity" ∉ ["dimensions"] →
     update_position_obj (obj_of dict_type three_particles ["dimensions"]) None
       = ([], Returns (update_position three_particles None))) ∧
  ("position" ∉ ["dimensions"] → "velocity" ∉ ["dimensions"] →
   "n_particles" ∈ ["dimensions"] →
     update_position_obj (obj_of dict_type three_particles ["dimensions"])
       (Some ([0.0], [10.0])%float)
       = ([swarm_msg dict_type], Raises AttributeError)) ∧
  (length [0.0%float] = dimensions three_particles →
   length [10.0%float] = dimensions three_particles →
   "position" ∉ ["dimensions"] → "velocity" ∉ ["dimensions"] →
   "n_particles" ∉ ["dimensions"] → "dimensions" ∈ ["dimensions"] →
     update_position_obj (obj_of dict_type three_particles ["dimensions"])
       (Some ([0.0], [10.0])%float)
       = ([swarm_msg dict_type], Raises AttributeError)) ∧
  (length [0.0%float] = dimensions three_particles →
   length [10.0%float] = dimensions three_particles →
   "position" ∉ ["dimensions"] → "velocity" ∉ ["dimensions"] →
   "n_particles" ∉ ["dimensions"] → "dimensions" ∉ ["dimensions"] →
     update_position_obj (obj_of dict_type three_particles ["dimensions"])
       (Some ([0.0], [10.0])%float)
       = ([], Returns (update_position three_particles
                         (Some ([0.0], [10.0])%float)))) ∧
  (0 < n_particles three_particles →
   length [0.0%float] ≠ dimensions three_particles →
   length [0.0%float] ≠ 1 → dimensions three_particles ≠ 1 →
   "position" ∉ ["dimensions"] → "velocity" ∉ ["dimensions"] →
   "n_particles" ∉ ["dimensions"] →
     update_position_obj (obj_of dict_type three_particles ["dimensions"])
       (Some ([0.0], [10.0])%float)
       = ([], Raises (Lib ValueError))).
Proof.
  split; [reflexivity|].
  apply (update_position_obj_outcome dict_type three_particles ["dimensions"]
           [0.0%float] [10.0%float]).
  reflexivity.
Defined.

Lemma update_velocity_obj_outcome_witness :
  swarm_wf three_particles = true ∧
  has_shape (n_particles three_particles) (dimensions three_particles)
    [[0.5]; [0.5]; [0.5]]%float = true ∧
  has_shape (n_particles three_particles) (dimensions three_particles)
    [[0.25]; [0.75]; [0.5]]%float = true ∧
  let call :=
    update_velocity_obj (obj_of dict_type three_particles ["velocity"]) None
      [[0.5]; [0.5]; [0.5]]%float [[0.25]; [0.75]; [0.5]]%float in
  ("position" ∈ ["velocity"] ∨ "behavior" ∈ ["velocity"] →
     call = ([swarm_msg dict_type], Raises AttributeError)) ∧
  ("position" ∉ ["velocity"] → "behavior" ∉ ["velocity"] →
   behavior three_particles !! "c1" = None ∨
   behavior three_particles !! "c2" = None ∨
   behavior three_particles !! "w" = None →
     call = ([key_msg], Raises (Lib KeyError))) ∧
  ("position" ∉ ["velocity"] → "behavior" ∉ ["velocity"] →
   is_Some (behavior three_particles !! "c1") →
   is_Some (behavior three_particles !! "c2") →
   is_Some (behavior three_particles !! "w") →
   "pbest_pos" ∈ ["velocity"] ∨ "best_pos" ∈ ["velocity"] ∨
   "velocity" ∈ ["velocity"] →
     call = ([swarm_msg dict_type], Raises AttributeError)) ∧
  ("position" ∉ ["velocity"] → "behavior" ∉ ["velocity"] →
   "pbest_pos" ∉ ["velocity"] → "best_pos" ∉ ["velocity"] →
   "velocity" ∉ ["velocity"] →
   ∀ out,
     update_velocity three_particles None
       [[0.5]; [0.5]; [0.5]]%float [[0.25]; [0.75]; [0.5]]%float = Ok out →
     call = ([], Returns out)).
Proof.
  do 3 (split; [reflexivity|]).
  exact (update_velocity_obj_outcome dict_type three_particles ["velocity"] None
           [[0.5]; [0.5]; [0.5]]%float [[0.25]; [0.75]; [0.5]]%float
           eq_refl eq_refl eq_refl).
Defined.

Lemma update_gbest_neighborhood_obj_outcome_witness :
  swarm_wf two_particles = true ∧
  let data := float64 (position two_particles) in
  let call :=
    update_gbest_neighborhood_obj cKDTree_query
      (obj_of dict_type two_particles ["pbest_cost"]) 2 2 in
  ("position" ∈ ["pbest_cost"] →
     call = ([swarm_msg dict_type], Raises AttributeError)) ∧
  ("position" ∉ ["pbest_cost"] →
   ∀ e, cKDTree_query data data 2 2 = Raise e → call = ([], Raises (Lib e))) ∧
  ("position" ∉ ["pbest_cost"] → "pbest_cost" ∈ ["pbest_cost"] →
   ∀ idx, cKDTree_query data data 2 2 = Ok idx →
     call = ([swarm_msg dict_type], Raises AttributeError)) ∧
  ("position" ∉ ["pbest_cost"] → "pbest_cost" ∉ ["pbest_cost"] →
   "pbest_pos" ∈ ["pbest_cost"] →
   0 < n_particles two_particles → (1 ≤ 2)%Z →
   ∀ idx, cKDTree_query data data 2 2 = Ok idx →
     index_array (n_particles two_particles) (Z.to_nat 2) idx = true →
     call = ([swarm_msg dict_type], Raises AttributeError)) ∧
  ("position" ∉ ["pbest_cost"] → "pbest_cost" ∉ ["pbest_cost"] →
   "pbest_pos" ∉ ["pbest_cost"] →
     call = ([], lib (update_gbest_neighborhood_with cKDTree_query
                        two_particles 2 2))).
Proof.
  split; [reflexivity|].
  exact (update_gbest_neighborhood_obj_outcome cKDTree_query dict_type
           two_particles ["pbest_cost"] 2%Z 2%Z eq_refl).
Defined.
